(** * Cross-chain examples: the transaction monitor and the streaming-quote consumer

    A shallow embedding of two pieces of the repository:

    - [CrossChainClient.getStatus] and [CrossChainClient.monitorTransaction]
      (nodejs/src/crossChainClient.ts), the bounded-retry status poller;
    - the body of [startStreaming]
      (nextjs-streaming/src/components/StreamingQuote.tsx), the consumer of
      the server-sent-event stream of routes.

    JavaScript values are modelled by the type [Value]; the effects of the
    code (remote calls, callbacks, delays, React state updates) are made
    explicit as logs and state passing. *)

From Stdlib Require Import ZArith List String Ascii Bool Lia.
From Stdlib Require Import Numbers.DecimalString.
From Stdlib Require Init.Byte.
Import ListNotations.

Local Open Scope string_scope.
Local Open Scope Z_scope.

Set Warnings "-register-all".

(* ================================================================== *)
(** ** JavaScript values *)
(* ================================================================== *)

Module JS.

(** A JavaScript value as [JSON.parse] produces it, plus [undefined].
    Numbers are restricted to integers; an object is the list of its own
    properties, by insertion order (the engine's reordering of integer-like
    keys is not modelled, nothing below depends on it). *)
Inductive Value : Type :=
| VUndefined
| VNull
| VBool (b : bool)
| VNum (n : Z)
| VStr (s : string)
| VArr (items : list Value)
| VObj (props : list (string * Value)).

(** Exceptions that the modelled code can raise and catch. *)
Inductive Thrown : Type :=
| SyntaxError      (* JSON.parse on malformed text *)
| TypeError.       (* property read on null/undefined, [in] on a primitive *)

Inductive Exc (A : Type) : Type :=
| Ok (a : A)
| Throw (e : Thrown).
Arguments Ok {A} a.
Arguments Throw {A} e.

Definition bind {A B} (m : Exc A) (k : A -> Exc B) : Exc B :=
  match m with
  | Ok a => k a
  | Throw e => Throw e
  end.

Notation "x <- m ;; k" := (bind m (fun x => k))
  (at level 61, m at next level, right associativity).

(** The value of own property [k]; when the list repeats a key the last
    binding wins, as in an object literal and in [JSON.parse]. *)
Fixpoint obj_get (k : string) (props : list (string * Value)) : option Value :=
  match props with
  | [] => None
  | (k', v) :: rest =>
      match obj_get k rest with
      | Some v' => Some v'
      | None => if String.eqb k k' then Some v else None
      end
  end.

(** [o[k] = v]: overwrite in place when the key exists, append otherwise. *)
Fixpoint obj_set (k : string) (v : Value) (props : list (string * Value))
  : list (string * Value) :=
  match props with
  | [] => [(k, v)]
  | (k', v') :: rest =>
      if String.eqb k k' then (k', v) :: rest
      else (k', v') :: obj_set k v rest
  end.

(** Property read [v.k], for the property names the modelled code uses
    (data, event, type, route, allowanceTarget, zid, error, message,
    liquidityAvailable, status, ...): none of them is a built-in property
    of a string, number, boolean or array, so the read gives [undefined]
    there; on [null] and [undefined] it throws. *)
Definition get (v : Value) (k : string) : Exc Value :=
  match v with
  | VUndefined | VNull => Throw TypeError
  | VObj props =>
      match obj_get k props with
      | Some x => Ok x
      | None => Ok VUndefined
      end
  | _ => Ok VUndefined
  end.

(** [k in v], for a name [k] that is no built-in property: throws on
    every primitive. *)
Definition js_in (k : string) (v : Value) : Exc bool :=
  match v with
  | VObj props =>
      match obj_get k props with
      | Some _ => Ok true
      | None => Ok false
      end
  | VArr _ => Ok false
  | _ => Throw TypeError
  end.

(** Truthiness, as in [cond ? a : b]. *)
Definition truthy (v : Value) : bool :=
  match v with
  | VUndefined | VNull => false
  | VBool b => b
  | VNum n => negb (n =? 0)
  | VStr s => negb (String.eqb s "")
  | VArr _ | VObj _ => true
  end.

(** [`${n}`] for an integer [n] (below 10^21 in absolute value, where
    JavaScript writes all the digits). *)
Definition numberToString (n : Z) : string :=
  NilEmpty.string_of_int (Z.to_int n).

(** The string conversion of a template literal, [`${v}`], for a value
    that [JSON.parse] made. An object goes through its [toString]
    property: an own member of that name is never callable, and the
    inherited [valueOf] gives the object back, so the conversion throws;
    without such a member the inherited method gives "[object Object]".
    An array is joined with commas, [null] and [undefined] elements
    counting as empty. *)
Fixpoint ToString (v : Value) : Exc string :=
  match v with
  | VUndefined => Ok "undefined"
  | VNull => Ok "null"
  | VBool b => Ok (if b then "true" else "false")
  | VNum n => Ok (numberToString n)
  | VStr s => Ok s
  | VArr items =>
      (fix join (l : list Value) : Exc string :=
         match l with
         | [] => Ok ""
         | x :: rest =>
             first <- match x with
                      | VUndefined | VNull => Ok ""
                      | _ => ToString x
                      end ;;
             match rest with
             | [] => Ok first
             | _ :: _ => others <- join rest ;; Ok (first ++ "," ++ others)
             end
         end) items
  | VObj props =>
      match obj_get "toString" props with
      | Some _ => Throw TypeError
      | None => Ok "[object Object]"
      end
  end.

Definition index_key (i : nat) : string :=
  NilZero.string_of_uint (Nat.to_uint i).

Fixpoint indexed {A} (f : A -> Value) (i : nat) (l : list A)
  : list (string * Value) :=
  match l with
  | [] => []
  | x :: rest => (index_key i, f x) :: indexed f (S i) rest
  end.

(** The own enumerable properties that [{...v}] copies. *)
Definition own_props (v : Value) : list (string * Value) :=
  match v with
  | VObj props => props
  | VArr items => indexed (fun x => x) 0 items
  | VStr s => indexed (fun c => VStr (String c "")) 0 (list_ascii_of_string s)
  | _ => []
  end.

(** [{...v}] into the object under construction [acc]. *)
Definition spread (v : Value) (acc : list (string * Value))
  : list (string * Value) :=
  fold_left (fun o kv => obj_set (fst kv) (snd kv) o) (own_props v) acc.

(** The property names of an object, by position. *)
Definition keys (props : list (string * Value)) : list string := map fst props.

(** [a === VStr s]. *)
Definition is_string (a : Value) (s : string) : bool :=
  match a with
  | VStr s' => String.eqb s' s
  | _ => false
  end.

End JS.

(* ================================================================== *)
(** ** The transaction monitor (nodejs/src/crossChainClient.ts) *)
(* ================================================================== *)

Module Monitor.
Import JS.

(** *** Data *)

Record TransactionInfo : Type := {
  chainId : Z;
  chain : string;
  txHash : string;
  timestamp : Z
}.

(** [z.infer<typeof CrossChainStatusResponseSchema>]: at run time [status]
    and [subStatus] are plain strings. *)
Record CrossChainStatusResponse : Type := {
  status : string;
  subStatus : option string;
  bridge : option string;
  transactions : list TransactionInfo;
  zid : string
}.

Record CrossChainStatusRequest : Type := {
  originChain : string + Z;
  originTxHash : string
}.

(** The members of [z.enum([...])] for [status]. *)
Definition statusEnum : list string :=
  [ "origin_tx_succeeded"; "origin_tx_confirmed"; "origin_tx_reverted";
    "bridge_pending"; "bridge_delayed"; "bridge_filled"; "bridge_failed";
    "refund_pending"; "refund_succeeded"; "refund_failed";
    "destination_tx_pending"; "destination_tx_confirmed";
    "destination_tx_reverted"; "destination_tx_succeeded";
    "destination_tx_failed"; "not_found"; "unknown" ].

Definition subStatusEnum : list string :=
  [ "insufficient_allowance"; "insufficient_balance"; "failed_simulation";
    "expired"; "internal"; "unknown" ].

(** [finalStates] of [monitorTransaction]. *)
Definition finalStates : list string :=
  [ "destination_tx_succeeded"; "destination_tx_failed";
    "destination_tx_reverted"; "bridge_failed"; "bridge_filled";
    "refund_succeeded"; "refund_failed"; "origin_tx_reverted" ].

(** [Array.prototype.includes] on an array of strings. *)
Definition includes (l : list string) (s : string) : bool :=
  existsb (String.eqb s) l.

(** What the code can throw. *)
Inductive JsError : Type :=
| FetchRejected (message : string)
    (* [fetch] itself rejects (network failure) *)
| FailedToFetchStatus (httpStatus : Z) (statusText errorText : string)
    (* [new Error(`Failed to fetch status: ...`)] *)
| JsonRejected
    (* [response.json()] rejects *)
| ZodError
    (* [CrossChainStatusResponseSchema.parse] throws *)
| MonitoringTimedOut (maxAttempts : Z).
    (* [new Error(`Transaction monitoring timed out after ${maxAttempts} attempts`)] *)

(** The [Response] of [fetch], by the members the code reads. *)
Record Response : Type := {
  resp_ok : bool;
  resp_status : Z;
  resp_statusText : string;
  resp_text : string;            (* await response.text() *)
  resp_json : option Value       (* await response.json(); None: it rejects *)
}.

Inductive FetchOutcome : Type :=
| Rejects (message : string)
| Responds (r : Response).

(** *** The schema check of [getStatus] *)

Definition parse_string (v : Value) : option string :=
  match v with
  | VStr s => Some s
  | _ => None
  end.

Definition parse_number (v : Value) : option Z :=
  match v with
  | VNum n => Some n
  | _ => None
  end.

Definition parse_enum (members : list string) (v : Value) : option string :=
  match v with
  | VStr s => if includes members s then Some s else None
  | _ => None
  end.

(** [schema.optional()]: a missing key or [undefined] passes as absent. *)
Definition parse_optional {A} (p : Value -> option A) (v : option Value)
  : option (option A) :=
  match v with
  | None | Some VUndefined => Some None
  | Some x =>
      match p x with
      | Some a => Some (Some a)
      | None => None
      end
  end.

Definition parse_required {A} (p : Value -> option A) (v : option Value)
  : option A :=
  match v with
  | Some x => p x
  | None => None
  end.

(** [TransactionInfoSchema.parse]. *)
Definition parse_TransactionInfo (v : Value) : option TransactionInfo :=
  match v with
  | VObj props =>
      match parse_required parse_number (obj_get "chainId" props),
            parse_required parse_string (obj_get "chain" props),
            parse_required parse_string (obj_get "txHash" props),
            parse_required parse_number (obj_get "timestamp" props) with
      | Some c, Some n, Some h, Some t =>
          Some {| chainId := c; chain := n; txHash := h; timestamp := t |}
      | _, _, _, _ => None
      end
  | _ => None
  end.

Fixpoint parse_all {A} (p : Value -> option A) (l : list Value)
  : option (list A) :=
  match l with
  | [] => Some []
  | x :: rest =>
      match p x, parse_all p rest with
      | Some a, Some r => Some (a :: r)
      | _, _ => None
      end
  end.

Definition parse_array {A} (p : Value -> option A) (v : Value)
  : option (list A) :=
  match v with
  | VArr items => parse_all p items
  | _ => None
  end.

(** [CrossChainStatusResponseSchema.parse]; [None] stands for the thrown
    ZodError. Unknown keys are dropped. *)
Definition CrossChainStatusResponseSchema_parse (data : Value)
  : option CrossChainStatusResponse :=
  match data with
  | VObj props =>
      match parse_required (parse_enum statusEnum) (obj_get "status" props),
            parse_optional (parse_enum subStatusEnum) (obj_get "subStatus" props),
            parse_optional parse_string (obj_get "bridge" props),
            parse_required (parse_array parse_TransactionInfo)
                           (obj_get "transactions" props),
            parse_required parse_string (obj_get "zid" props) with
      | Some s, Some ss, Some b, Some txs, Some z =>
          Some {| status := s; subStatus := ss; bridge := b;
                  transactions := txs; zid := z |}
      | _, _, _, _, _ => None
      end
  | _ => None
  end.

(** *** Effects

    The remote endpoint is an oracle: [remote request i] is what the
    [i]-th call of [fetch] (counted from 0) meets. The observable actions
    are logged in order. The [onUpdate] callback is an opaque observer: the
    model records each call and takes it to return normally. *)

Inductive Effect : Type :=
| Fetch (request : CrossChainStatusRequest)
| OnUpdate (s : CrossChainStatusResponse)
| Sleep (ms : Z)
| Warn (attemptNumber : Z) (e : JsError).

Record World : Type := {
  calls : nat;            (* fetch calls made so far *)
  log : list Effect       (* oldest first *)
}.

Definition emit (e : Effect) (w : World) : World :=
  {| calls := calls w; log := log w ++ [e] |}.

Definition Remote : Type := CrossChainStatusRequest -> nat -> FetchOutcome.

(** [getStatus(request)]. *)
Definition getStatus (remote : Remote) (request : CrossChainStatusRequest)
  (w : World) : World * (JsError + CrossChainStatusResponse) :=
  let w1 := {| calls := S (calls w); log := log w ++ [Fetch request] |} in
  match remote request (calls w) with
  | Rejects m => (w1, inl (FetchRejected m))
  | Responds response =>
      if negb (resp_ok response) then
        (w1, inl (FailedToFetchStatus (resp_status response)
                    (resp_statusText response) (resp_text response)))
      else
        match resp_json response with
        | None => (w1, inl JsonRejected)
        | Some data =>
            match CrossChainStatusResponseSchema_parse data with
            | Some s => (w1, inr s)
            | None => (w1, inl ZodError)
            end
        end
  end.

(** The [options] argument. The numbers are integers; [onUpdate] tells
    whether a callback was passed, its calls show in the log. *)
Record Options : Type := {
  maxAttempts : option Z;
  intervalMs : option Z;
  onUpdate : bool
}.

Inductive Outcome : Type :=
| Returned (s : CrossChainStatusResponse)
| Threw (e : JsError).

Section Loop.
Variable remote : Remote.
Variable request : CrossChainStatusRequest.
Variables (maxAttempts_ intervalMs_ : Z) (onUpdate_ : bool).

(** The [for] loop from the iteration with counter [attempt]; [fuel]
    bounds the number of iterations, [None] means it ran out. *)
Fixpoint monitorLoop (fuel : nat) (attempt : Z) (w : World)
  : option (World * Outcome) :=
  if attempt <? maxAttempts_ then
    match fuel with
    | O => None
    | S fuel' =>
        match getStatus remote request w with
        | (w1, inr s) =>
            let w2 := if onUpdate_ then emit (OnUpdate s) w1 else w1 in
            if includes finalStates (status s) then Some (w2, Returned s)
            else
              let w3 := if attempt <? maxAttempts_ - 1
                        then emit (Sleep intervalMs_) w2 else w2 in
              monitorLoop fuel' (attempt + 1) w3
        | (w1, inl error) =>
            let w2 := emit (Warn (attempt + 1) error) w1 in
            if attempt =? maxAttempts_ - 1 then Some (w2, Threw error)
            else monitorLoop fuel' (attempt + 1) (emit (Sleep intervalMs_) w2)
        end
    end
  else Some (w, Threw (MonitoringTimedOut maxAttempts_)).
End Loop.

Definition world0 : World := {| calls := 0%nat; log := [] |}.

Definition default {A} (d : A) (o : option A) : A :=
  match o with
  | Some a => a
  | None => d
  end.

(** [const { maxAttempts = 60, intervalMs = 5000, onUpdate } = options]. *)
Definition attemptBudget (options : Options) : Z :=
  default 60 (maxAttempts options).
Definition delay (options : Options) : Z :=
  default 5000 (intervalMs options).

(** [monitorTransaction(request, options)]. The loop gets as many
    iterations as the counter can take below [maxAttempts]. *)
Definition monitorTransaction (remote : Remote)
  (request : CrossChainStatusRequest) (options : Options)
  : option (World * Outcome) :=
  monitorLoop remote request (attemptBudget options) (delay options)
    (onUpdate options) (Z.to_nat (attemptBudget options)) 0 world0.

(** Counting in a log. *)
Definition is_fetch (e : Effect) : bool :=
  match e with Fetch _ => true | _ => false end.
Definition is_sleep (e : Effect) : bool :=
  match e with Sleep _ => true | _ => false end.

Definition fetches (l : list Effect) : nat := List.length (filter is_fetch l).
Definition sleeps (l : list Effect) : list Z :=
  flat_map (fun e => match e with Sleep ms => [ms] | _ => [] end) l.
Definition updates (l : list Effect) : list CrossChainStatusResponse :=
  flat_map (fun e => match e with OnUpdate s => [s] | _ => [] end) l.

(** The fetches and delays of a log, in order. *)
Definition schedule (l : list Effect) : list Effect :=
  filter (fun e => is_fetch e || is_sleep e) l.

(** [n] fetches with one delay between each two. *)
Fixpoint polls (request : CrossChainStatusRequest) (ms : Z) (n : nat)
  : list Effect :=
  match n with
  | O => []
  | S n' =>
      match n' with
      | O => [Fetch request]
      | S _ => Fetch request :: Sleep ms :: polls request ms n'
      end
  end.

(** What the [i]-th call of [getStatus] gives (calls counted from 0). *)
Definition attemptResult (remote : Remote) (request : CrossChainStatusRequest)
  (i : nat) : JsError + CrossChainStatusResponse :=
  snd (getStatus remote request {| calls := i; log := [] |}).

Definition isFinal (s : CrossChainStatusResponse) : bool :=
  includes finalStates (status s).

(** The attempt neither returns nor is known to be the last one: it failed,
    or it gave a status that is not final. *)
Definition pending (r : JsError + CrossChainStatusResponse) : bool :=
  match r with
  | inr s => negb (isFinal s)
  | inl _ => true
  end.

(** The statuses of the successful calls among calls [c .. c+n-1]. *)
Definition fetchedStatuses (remote : Remote) (request : CrossChainStatusRequest)
  (c n : nat) : list CrossChainStatusResponse :=
  flat_map (fun i => match attemptResult remote request i with
                     | inr s => [s]
                     | inl _ => []
                     end) (seq c n).

Section PendingLog.
Variable remote : Remote.
Variable request : CrossChainStatusRequest.
Variables (ms : Z) (upd : bool).

(** What a pending attempt that is not the last one leaves in the log:
    the fetch, the callback or the warning, the delay. *)
Definition pendingSegment (attempt : Z)
  (r : JsError + CrossChainStatusResponse) : list Effect :=
  (Fetch request ::
   match r with
   | inr s => if upd then [OnUpdate s] else []
   | inl e => [Warn (attempt + 1) e]
   end ++ [Sleep ms])%list.

(** The log of [j] such attempts in a row, from counter [attempt] and
    call number [c]. *)
Fixpoint pendingLog (attempt : Z) (c j : nat) : list Effect :=
  match j with
  | O => []
  | S j' =>
      (pendingSegment attempt (attemptResult remote request c)
       ++ pendingLog (attempt + 1) (S c) j')%list
  end.
End PendingLog.

End Monitor.

(* ================================================================== *)
(** ** The streaming-quote consumer
       (nextjs-streaming/src/components/StreamingQuote.tsx) *)
(* ================================================================== *)

Module Stream.
Import JS.

(** *** Text

    A [string] stands for a JavaScript string with one [ascii] per code
    unit; code units above 255 are not represented. *)

Definition newline : ascii := "010"%char.

(** [s.split("\n")]. The result is never empty. *)
Fixpoint split_newline (s : string) : list string :=
  match s with
  | EmptyString => [""]
  | String c rest =>
      if Ascii.eqb c newline then "" :: split_newline rest
      else
        match split_newline rest with
        | first :: others => String c first :: others
        | [] => [String c ""]
        end
  end.

(** [lines.pop()]: the removed last element ([None] for [undefined], on
    an empty array) and the array that is left. *)
Fixpoint pop {A} (l : list A) : option A * list A :=
  match l with
  | [] => (None, [])
  | x :: rest =>
      match rest with
      | [] => (Some x, [])
      | _ :: _ => let (last, rest') := pop rest in (last, x :: rest')
      end
  end.

(** [popped || ""]. *)
Definition or_empty (popped : option string) : string :=
  match popped with
  | Some s => if String.eqb s "" then "" else s
  | None => ""
  end.

(** [line.startsWith(p)]. *)
Definition startsWith (p line : string) : bool := String.prefix p line.

(** [line.slice(n)] for [0 <= n]. *)
Fixpoint slice (n : nat) (s : string) : string :=
  match n, s with
  | O, _ => s
  | S n', String _ rest => slice n' rest
  | S _, EmptyString => ""
  end.

(** White space and line terminators among the code units below 256:
    TAB, LF, VT, FF, CR, SPACE and NBSP. *)
Definition isWhiteSpace (c : ascii) : bool :=
  let n := nat_of_ascii c in
  ((9 <=? n) && (n <=? 13))%nat || (n =? 32)%nat || (n =? 160)%nat.

Fixpoint trimStart (s : string) : string :=
  match s with
  | EmptyString => ""
  | String c rest => if isWhiteSpace c then trimStart rest else s
  end.

Definition reverse (s : string) : string :=
  string_of_list_ascii (rev (list_ascii_of_string s)).

(** [s.trim()]. *)
Definition trim (s : string) : string :=
  reverse (trimStart (reverse (trimStart s))).

(** *** Component state and what the consumer reports *)

(** The message passed to [setError]. *)
Inductive ErrorMessage : Type :=
| ApiError (httpStatus : Z) (errorText : string)
    (* `API error: ${response.status} - ${errorText}` *)
| NoResponseBody
    (* "No response body available" *)
| FatalErrorMessage (message : string)
    (* `Fatal error: ${fatalError.error.message}`, with the text that the
       message converts to *)
| ParseErrorMessage
    (* "Error parsing server response" *)
| ConnectionError (message : string)
    (* `Connection error: ${err.message}` *)
| ConnectionErrorOccurred.
    (* "Connection error occurred" *)

(** The React state of the component. *)
Record State : Type := {
  routes : list Value;
  isStreaming : bool;
  isComplete : bool;
  error : option ErrorMessage;
  liquidityAvailable : option Value      (* None: null *)
}.

(** The decoded events, in the order the consumer acts on them:
    - [RouteFound r]: the [setRoutes] update appended [r] (with its [id]
      and [displayIndex]);
    - [StreamResult v]: [setLiquidityAvailable(v)], then the function
      returns;
    - [FatalError m]: [setError] with the text [m] of the fatal message,
      then the function returns;
    - [ParseError raw]: the [catch] of the line, [console.error] with the
      raw data and [setError("Error parsing server response")]. *)
Inductive StreamEvent : Type :=
| RouteFound (route : Value)
| StreamResult (liquidityAvailable : Value)
| FatalError (message : string)
| ParseError (eventData : string).

Definition isTerminal (e : StreamEvent) : bool :=
  match e with
  | StreamResult _ | FatalError _ => true
  | RouteFound _ | ParseError _ => false
  end.

(** How a piece of the loop body ends: it falls through to the next
    line/chunk, or it executes [return]. *)
Inductive Completion : Type :=
| Normal (st : State) (events : list StreamEvent)
| Return (st : State) (events : list StreamEvent).

Definition setError (e : ErrorMessage) (st : State) : State :=
  {| routes := routes st; isStreaming := isStreaming st;
     isComplete := isComplete st; error := Some e;
     liquidityAvailable := liquidityAvailable st |}.

Definition setLiquidityAvailable (v : Value) (st : State) : State :=
  {| routes := routes st; isStreaming := isStreaming st;
     isComplete := isComplete st; error := error st;
     liquidityAvailable := Some v |}.

Definition setIsStreaming (b : bool) (st : State) : State :=
  {| routes := routes st; isStreaming := b;
     isComplete := isComplete st; error := error st;
     liquidityAvailable := liquidityAvailable st |}.

Definition setIsComplete (b : bool) (st : State) : State :=
  {| routes := routes st; isStreaming := isStreaming st;
     isComplete := b; error := error st;
     liquidityAvailable := liquidityAvailable st |}.

(** [setRoutes(prevRoutes => [...prevRoutes, {...route, displayIndex:
    prevRoutes.length + 1}])]; also gives the appended record. *)
Definition appendRoute (route : list (string * Value)) (st : State)
  : State * Value :=
  let newRoute :=
    VObj (obj_set "displayIndex"
            (VNum (Z.of_nat (List.length (routes st)) + 1))
            (spread (VObj route) [])) in
  ({| routes := routes st ++ [newRoute]; isStreaming := isStreaming st;
      isComplete := isComplete st; error := error st;
      liquidityAvailable := liquidityAvailable st |}, newRoute).

(** What a rejected promise throws into the outer [catch]: an [Error]
    with its [name] and [message], or some other value. *)
Inductive Rejection : Type :=
| ErrorValue (name message : string)
| OtherValue.

(** What [reader.read()] resolves or rejects with, one entry per call;
    after the last entry the reader reports [done]. *)
Inductive ReadResult : Type :=
| Chunk (value : list Byte.byte)
| ReadRejects (err : Rejection).

(** The response of the streaming endpoint, by what the code reads. *)
Record StreamResponse : Type := {
  resp_ok : bool;
  resp_status : Z;
  resp_text : string;
  resp_body : option (list ReadResult)      (* None: no readable body *)
}.

Inductive FetchOutcome : Type :=
| FetchRejects (err : Rejection)
| FetchResponds (r : StreamResponse).

Section Consumer.
(** [JSON.parse]; [None] when it throws. *)
Variable JSON_parse : string -> option Value.

(** [TextDecoder] in stream mode: a machine that takes the bytes one by
    one, keeps the bytes of an unfinished character in its state and
    gives the text decoded so far. *)
Variable Decoder : Type.
Variable newTextDecoder : Decoder.
Variable decodeByte : Decoder -> Byte.byte -> Decoder * string.

(** [decoder.decode(value, { stream: true })]. *)
Definition decode (d : Decoder) (value : list Byte.byte) : Decoder * string :=
  fold_left (fun acc b =>
               let (d', text) := decodeByte (fst acc) b in
               (d', snd acc ++ text))
            value (d, "").

(** The body of the [try] for one data line. [Throw] is an exception
    that reaches the [catch] of the line. ([console.info] of the parsed
    data is left out.) *)
Definition tryBody (st : State) (eventData : string) : Exc Completion :=
  data <- match JSON_parse eventData with
          | Some v => Ok v
          | None => Throw SyntaxError
          end ;;
  isFatal <- js_in "error" data ;;
  if (isFatal : bool) then
    fatal <- get data "error" ;;
    message <- get fatal "message" ;;
    text <- ToString message ;;
    Ok (Return (setIsComplete true
                  (setIsStreaming false
                     (setError (FatalErrorMessage text) st)))
               [FatalError text])
  else
    inner <- get data "data" ;;
    event <- get inner "event" ;;
    type <- get event "type" ;;
    if is_string type "route" then
      routeData <- get event "data" ;;
      nested <- get routeData "route" ;;
      route <- (if truthy nested then
                  allowanceTarget <- get routeData "allowanceTarget" ;;
                  zid <- get inner "zid" ;;
                  Ok (obj_set "id" zid
                        (obj_set "allowanceTarget" allowanceTarget
                           (spread nested [])))
                else
                  zid <- get inner "zid" ;;
                  Ok (obj_set "id" zid (spread routeData []))) ;;
      let (st', newRoute) := appendRoute route st in
      Ok (Normal st' [RouteFound newRoute])
    else if is_string type "result" then
      result <- get event "data" ;;
      available <- get result "liquidityAvailable" ;;
      Ok (Return (setIsComplete true
                    (setIsStreaming false
                       (setLiquidityAvailable available st)))
                 [StreamResult available])
    else Ok (Normal st []).

(** The body of [for (const line of lines)]. *)
Definition processLine (st : State) (line : string) : Completion :=
  if startsWith "data: " line then
    let eventData := slice 6 line in
    if String.eqb (trim eventData) "" then Normal st []
    else
      match tryBody st eventData with
      | Ok c => c
      | Throw _ => Normal (setError ParseErrorMessage st) [ParseError eventData]
      end
  else Normal st [].

(** [for (const line of lines) { ... }], with the events of the lines
    already done in front. *)
Fixpoint processLines (st : State) (lines : list string) : Completion :=
  match lines with
  | [] => Normal st []
  | line :: rest =>
      match processLine st line with
      | Normal st' events =>
          match processLines st' rest with
          | Normal st'' events' => Normal st'' (events ++ events')%list
          | Return st'' events' => Return st'' (events ++ events')%list
          end
      | Return st' events => Return st' events
      end
  end.

(** The [catch] around the whole request. *)
Definition connectionCatch (err : Rejection) (st : State) : State :=
  match err with
  | ErrorValue name message =>
      if String.eqb name "AbortError" then st
      else setIsComplete true
             (setIsStreaming false (setError (ConnectionError message) st))
  | OtherValue =>
      setIsComplete true
        (setIsStreaming false (setError ConnectionErrorOccurred st))
  end.

(** [while (true) { ... }] over what the reader still has. *)
Fixpoint readLoop (reader : list ReadResult) (decoder : Decoder)
  (buffer : string) (st : State) : State * list StreamEvent :=
  match reader with
  | [] => (st, [])
  | ReadRejects err :: _ => (connectionCatch err st, [])
  | Chunk value :: reader' =>
      let (decoder', text) := decode decoder value in
      let buffer1 := buffer ++ text in
      let (popped, lines) := pop (split_newline buffer1) in
      let buffer2 := or_empty popped in
      match processLines st lines with
      | Normal st' events =>
          let (st'', events') := readLoop reader' decoder' buffer2 st' in
          (st'', (events ++ events')%list)
      | Return st' events => (st', events)
      end
  end.

(** The state after the resets at the start of [startStreaming]. *)
Definition started : State :=
  {| routes := []; isStreaming := true; isComplete := false;
     error := None; liquidityAvailable := None |}.

(** [startStreaming()], from the [fetch] on; [outcome] is what the
    request meets. (Aborting an earlier stream through the
    [AbortController] is outside the model; an abort of this one shows as
    a rejection named "AbortError".) *)
Definition startStreaming (outcome : FetchOutcome)
  : State * list StreamEvent :=
  match outcome with
  | FetchRejects err => (connectionCatch err started, [])
  | FetchResponds response =>
      if negb (resp_ok response) then
        (setIsComplete true
           (setIsStreaming false
              (setError (ApiError (resp_status response)
                                  (resp_text response)) started)), [])
      else
        match resp_body response with
        | None =>
            (setIsComplete true
               (setIsStreaming false (setError NoResponseBody started)), [])
        | Some reader => readLoop reader newTextDecoder "" started
        end
  end.
End Consumer.

(** *** Vocabulary for the statements *)

(** The text has no line feed. *)
Definition noNewline (s : string) : bool :=
  forallb (fun c => negb (Ascii.eqb c newline)) (list_ascii_of_string s).

(** The lines, each closed by a line feed. *)
Fixpoint unlines (lines : list string) : string :=
  match lines with
  | [] => ""
  | line :: rest => line ++ String newline (unlines rest)
  end.

(** The text is empty or made of white space only. *)
Definition whiteSpaceOnly (s : string) : bool :=
  forallb isWhiteSpace (list_ascii_of_string s).

(** A successful response whose body delivers the given chunks and then
    ends. *)
Definition okStream (chunks : list (list Byte.byte)) : FetchOutcome :=
  FetchResponds {| resp_ok := true; resp_status := 200; resp_text := "";
                   resp_body := Some (map Chunk chunks) |}.

(** The envelope of the [StreamEvent] interface:
    [{ data: { zid, event: { type, data } } }]. *)
Definition streamEvent (zid : Value) (type : string) (payload : Value) : Value :=
  VObj [("data",
         VObj [("zid", zid);
               ("event", VObj [("type", VStr type); ("data", payload)])])].

(** A route payload with its fields under [route], and the same fields
    flat; both carry [allowanceTarget]. *)
Definition nestedRoute (fields : list (string * Value)) (allowanceTarget : Value)
  : Value :=
  VObj [("route", VObj fields); ("allowanceTarget", allowanceTarget)].

Definition flatRoute (fields : list (string * Value)) (allowanceTarget : Value)
  : Value :=
  VObj (fields ++ [("allowanceTarget", allowanceTarget)])%list.

(** The state and the events of a completion. *)
Definition stateOf (c : Completion) : State :=
  match c with Normal st _ | Return st _ => st end.

Definition eventsOf (c : Completion) : list StreamEvent :=
  match c with Normal _ events | Return _ events => events end.

Definition returned (c : Completion) : bool :=
  match c with Normal _ _ => false | Return _ _ => true end.

(** No event of the list is terminal. *)
Definition nonTerminal (events : list StreamEvent) : bool :=
  forallb (fun e => negb (isTerminal e)) events.

(** The list has no terminal event, or exactly one, in last position. *)
Definition wellEnded (events : list StreamEvent) : Prop :=
  nonTerminal events = true
  \/ exists before t,
       events = (before ++ [t])%list
       /\ nonTerminal before = true /\ isTerminal t = true.

End Stream.

(* ================================================================== *)
(** ** Sample inputs *)
(* ================================================================== *)

Module Samples.
Import JS.

Definition quote : string := String "034"%char "".
Definition quoted (s : string) : string := quote ++ s ++ quote.
Definition nl : string := String Stream.newline "".

(** *** For the monitor *)

Definition request : Monitor.CrossChainStatusRequest :=
  {| Monitor.originChain := inr 8453; Monitor.originTxHash := "0xabc" |}.

Definition statusBody (status : string) : Value :=
  VObj [("status", VStr status);
        ("transactions",
         VArr [VObj [("chainId", VNum 8453); ("chain", VStr "base");
                     ("txHash", VStr "0xabc"); ("timestamp", VNum 1700000000)]]);
        ("zid", VStr "0x1")].

Definition statusResponse (status : string) : Monitor.FetchOutcome :=
  Monitor.Responds
    {| Monitor.resp_ok := true; Monitor.resp_status := 200;
       Monitor.resp_statusText := "OK"; Monitor.resp_text := "";
       Monitor.resp_json := Some (statusBody status) |}.

(** What [getStatus] makes of [statusResponse status]. *)
Definition statusRecord (status : string) : Monitor.CrossChainStatusResponse :=
  {| Monitor.status := status; Monitor.subStatus := None;
     Monitor.bridge := None;
     Monitor.transactions :=
       [{| Monitor.chainId := 8453; Monitor.chain := "base";
           Monitor.txHash := "0xabc"; Monitor.timestamp := 1700000000 |}];
     Monitor.zid := "0x1" |}.

(** The transfer stays pending for ever. *)
Definition pendingRemote : Monitor.Remote :=
  fun _ _ => statusResponse "bridge_pending".

(** Pending twice, then settled on the destination chain. *)
Definition settlingRemote : Monitor.Remote :=
  fun _ i => if (i <? 2)%nat then statusResponse "bridge_pending"
             else statusResponse "destination_tx_succeeded".

(** The network is down at the second call only. *)
Definition flakyRemote : Monitor.Remote :=
  fun _ i => if (i =? 1)%nat then Monitor.Rejects "fetch failed"
             else statusResponse "bridge_pending".

Definition options (maxAttempts : Z) : Monitor.Options :=
  {| Monitor.maxAttempts := Some maxAttempts;
     Monitor.intervalMs := Some 0;
     Monitor.onUpdate := true |}.

(** *** For the stream *)

(** A decoder for streams of one-byte characters. *)
Definition byteDecoder (d : unit) (b : Byte.byte) : unit * string :=
  (d, String (ascii_of_byte b) "").

Definition bytes (s : string) : list Byte.byte := list_byte_of_string s.

Definition fatalText : string :=
  "{" ++ quoted "error" ++ ":{" ++ quoted "message" ++ ":"
  ++ quoted "no routes" ++ "," ++ quoted "code" ++ ":" ++ quoted "E1" ++ ","
  ++ quoted "type" ++ ":" ++ quoted "fatal" ++ "}}".

Definition fatalValue : Value :=
  VObj [("error", VObj [("message", VStr "no routes"); ("code", VStr "E1");
                        ("type", VStr "fatal")])].

Definition nullErrorText : string := "{" ++ quoted "error" ++ ":null}".
Definition nullErrorValue : Value := VObj [("error", VNull)].

(** An error whose message is an object with a member [toString]. *)
Definition unprintableErrorText : string :=
  "{" ++ quoted "error" ++ ":{" ++ quoted "message" ++ ":{"
  ++ quoted "toString" ++ ":0}}}".
Definition unprintableErrorValue : Value :=
  VObj [("error", VObj [("message", VObj [("toString", VNum 0)])])].

Definition envelopeText (zid type payload : string) : string :=
  "{" ++ quoted "data" ++ ":{" ++ quoted "zid" ++ ":" ++ quoted zid ++ ","
  ++ quoted "event" ++ ":{" ++ quoted "type" ++ ":" ++ quoted type ++ ","
  ++ quoted "data" ++ ":" ++ payload ++ "}}}".

Definition fieldsText : string :=
  quoted "sellAmount" ++ ":" ++ quoted "1000" ++ ","
  ++ quoted "buyAmount" ++ ":" ++ quoted "990".

Definition fields : list (string * Value) :=
  [("sellAmount", VStr "1000"); ("buyAmount", VStr "990")].

Definition nestedRouteText : string :=
  envelopeText "z1" "route"
    ("{" ++ quoted "route" ++ ":{" ++ fieldsText ++ "},"
     ++ quoted "allowanceTarget" ++ ":" ++ quoted "0xdef" ++ "}").

Definition flatRouteText : string :=
  envelopeText "z1" "route"
    ("{" ++ fieldsText ++ ","
     ++ quoted "allowanceTarget" ++ ":" ++ quoted "0xdef" ++ "}").

Definition resultText : string :=
  envelopeText "z1" "result"
    ("{" ++ quoted "liquidityAvailable" ++ ":true}").

Definition nullResultText : string := envelopeText "z1" "result" "null".

Definition brokenText : string := "{" ++ quoted "data" ++ ":".

(** [JSON.parse] on the sample texts; every other text counts as
    malformed. *)
Definition JSON_parse (text : string) : option Value :=
  if String.eqb text fatalText then Some fatalValue
  else if String.eqb text nullErrorText then Some nullErrorValue
  else if String.eqb text unprintableErrorText then Some unprintableErrorValue
  else if String.eqb text nestedRouteText then
    Some (Stream.streamEvent (VStr "z1") "route"
            (Stream.nestedRoute fields (VStr "0xdef")))
  else if String.eqb text flatRouteText then
    Some (Stream.streamEvent (VStr "z1") "route"
            (Stream.flatRoute fields (VStr "0xdef")))
  else if String.eqb text resultText then
    Some (Stream.streamEvent (VStr "z1") "result"
            (VObj [("liquidityAvailable", VBool true)]))
  else if String.eqb text nullResultText then
    Some (Stream.streamEvent (VStr "z1") "result" VNull)
  else None.

Definition dataLine (text : string) : string := "data: " ++ text ++ nl.

(** The record stored for the sample route when it is the [index]-th. *)
Definition routeRecord (index : Z) : Value :=
  VObj [("sellAmount", VStr "1000"); ("buyAmount", VStr "990");
        ("allowanceTarget", VStr "0xdef"); ("id", VStr "z1");
        ("displayIndex", VNum index)].

(** The state once the sample route has been stored. *)
Definition oneRoute : Stream.State :=
  {| Stream.routes := [routeRecord 1]; Stream.isStreaming := true;
     Stream.isComplete := false; Stream.error := None;
     Stream.liquidityAvailable := None |}.

(** [startStreaming] on a successful response with the given chunks. *)
Definition run (chunks : list string) : Stream.State * list Stream.StreamEvent :=
  Stream.startStreaming JSON_parse unit tt byteDecoder
    (Stream.okStream (map bytes chunks)).

End Samples.

(* ================================================================== *)
(** ** The rest of the streaming component: what it renders, the route
       card (nextjs-streaming/src/components) *)
(* ================================================================== *)

Module StreamVocabulary.
Import JS Stream.

(** A successful response whose body is the given reader. *)
Definition okResponse (reader : list ReadResult) : FetchOutcome :=
  FetchResponds {| resp_ok := true; resp_status := 200; resp_text := "";
                   resp_body := Some reader |}.

(** The routes of the [RouteFound] events, in order. *)
Definition foundRoutes (events : list StreamEvent) : list Value :=
  flat_map (fun e => match e with RouteFound r => [r] | _ => [] end) events.

(** The [displayIndex] member of a stored route. *)
Definition displayIndexOf (route : Value) : option Value :=
  match route with
  | VObj props => obj_get "displayIndex" props
  | _ => None
  end.

(** Every route of the list carries its position, counted from 1, as
    [displayIndex]. *)
Definition wellIndexed (rs : list Value) : Prop :=
  forall i r, nth_error rs i = Some r ->
    displayIndexOf r = Some (VNum (Z.of_nat i + 1)).

(** What one event does to the state of the component. *)
Definition applyEvent (st : State) (e : StreamEvent) : State :=
  match e with
  | RouteFound r =>
      {| routes := routes st ++ [r]; isStreaming := isStreaming st;
         isComplete := isComplete st; error := error st;
         liquidityAvailable := liquidityAvailable st |}
  | StreamResult v =>
      setIsComplete true (setIsStreaming false (setLiquidityAvailable v st))
  | FatalError m =>
      setIsComplete true
        (setIsStreaming false (setError (FatalErrorMessage m) st))
  | ParseError _ => setError ParseErrorMessage st
  end.

Definition replay (st : State) (events : list StreamEvent) : State :=
  fold_left applyEvent events st.

(** Whether some event of the list is terminal. *)
Definition ended (events : list StreamEvent) : bool := existsb isTerminal events.

End StreamVocabulary.

Module Rendering.
Import JS Stream.

(** [error && ...]: every message that [setError] gets is a non-empty
    string, so it is truthy exactly when it is not [null]. *)
Definition hasError (st : State) : bool :=
  match error st with
  | Some _ => true
  | None => false
  end.

(** [liquidityAvailable !== null]. *)
Definition hasLiquidityAnswer (st : State) : bool :=
  match liquidityAvailable st with
  | None | Some VNull => false
  | Some _ => true
  end.

(** The conditional parts of the JSX that [StreamingQuote] returns. *)
Record View : Type := {
  startButton : bool;        (* !isStreaming && !isComplete *)
  stopButton : bool;         (* isStreaming *)
  spinner : bool;            (* isStreaming: "Streaming routes..." *)
  completeBanner : bool;     (* isComplete && !error: "Streaming complete" *)
  errorBanner : option ErrorMessage;     (* error && <span>{error}</span> *)
  routeCards : list Value;   (* routes.map(...), one card per route *)
  finalResult : option bool  (* isComplete && liquidityAvailable !== null:
                                liquidityAvailable ? "Yes" : "No" *)
}.

(** [stopStreaming()]. The abort makes the pending read reject with an
    "AbortError", which [connectionCatch] ignores; what is left is
    [setIsStreaming(false)]. *)
Definition stopStreaming (st : State) : State := setIsStreaming false st.

Definition render (st : State) : View :=
  {| startButton := negb (isStreaming st) && negb (isComplete st);
     stopButton := isStreaming st;
     spinner := isStreaming st;
     completeBanner := isComplete st && negb (hasError st);
     errorBanner := error st;
     routeCards := routes st;
     finalResult :=
       if isComplete st && hasLiquidityAnswer st
       then match liquidityAvailable st with
            | Some v => Some (truthy v)
            | None => None
            end
       else None |}.

End Rendering.

Module RouteCard.
Import JS.

(** [route.displayIndex || route.seqNum], the number after "Route #". *)
Definition label (route : Value) : Exc Value :=
  displayIndex <- get route "displayIndex" ;;
  if truthy displayIndex then Ok displayIndex else get route "seqNum".

(** [`${n}`] for an integer [n]. *)
Definition decimal (n : Z) : string := NilEmpty.string_of_int (Z.to_int n).

(** [formatTime(seconds)], for a whole number of seconds. *)
Definition formatTime (seconds : Z) : string :=
  if seconds <? 60 then decimal seconds ++ "s"
  else
    let minutes := seconds / 60 in
    if minutes <? 60
    then decimal minutes ++ "m " ++ decimal (Z.rem seconds 60) ++ "s"
    else
      let hours := minutes / 60 in
      decimal hours ++ "h " ++ decimal (Z.rem minutes 60) ++ "m".

End RouteCard.

(* ================================================================== *)
(** ** The form page (nextjs-streaming/src/app/page.tsx) *)
(* ================================================================== *)

Module Page.
Import JS.

(** The state of [Home]: the form data object and [showStreaming]. *)
Record PageState : Type := {
  formData : list (string * Value);
  showStreaming : bool
}.

Definition initial : PageState :=
  {| formData :=
       [("originChain", VStr "8453");
        ("destinationChain", VStr "42161");
        ("sellToken", VStr "0x833589fcd6edb6e08f4c7c32d4f71b54bda02913");
        ("buyToken", VStr "0xaf88d065e77c8cc2239327c5edb3a432268e5831");
        ("sellAmount", VStr "1000000");
        ("originAddress", VStr "0xaeC1B7813F4274586659f67701c255E1b54803Cb");
        ("apiKey", VStr "")];
     showStreaming := false |}.

(** [handleInputChange(e)] with [e.target] giving [name] and [value]:
    [setFormData(prev => ({ ...prev, [name]: value }))]. *)
Definition handleInputChange (name value : string) (st : PageState)
  : PageState :=
  {| formData := obj_set name (VStr value) (spread (VObj (formData st)) []);
     showStreaming := showStreaming st |}.

Inductive Alert : Type :=
| PleaseEnterApiKey.       (* alert('Please enter your 0x API key') *)

(** [handleSubmit(e)]; [Throw] when [formData.apiKey] has no [trim]. *)
Definition handleSubmit (st : PageState) : Exc (PageState * list Alert) :=
  apiKey <- get (VObj (formData st)) "apiKey" ;;
  match apiKey with
  | VStr key =>
      if String.eqb (Stream.trim key) "" then Ok (st, [PleaseEnterApiKey])
      else Ok ({| formData := formData st; showStreaming := true |}, [])
  | _ => Throw TypeError
  end.

(** [resetDemo()]. *)
Definition resetDemo (st : PageState) : PageState :=
  {| formData := formData st; showStreaming := false |}.

(** The input events of a session, oldest first, applied to the initial
    state. *)
Definition afterChanges (changes : list (string * string)) : PageState :=
  fold_left (fun st c => handleInputChange (fst c) (snd c) st) changes initial.

(** The value last given to the field [name], [start] when none was. *)
Definition lastTyped (name start : string) (changes : list (string * string))
  : string :=
  fold_left (fun current c => if String.eqb (fst c) name then snd c else current)
            changes start.

End Page.

(* ================================================================== *)
(** ** The configuration and how the scripts use it
       (nodejs/src/config.ts, src/fromSolanaToEvm.ts) *)
(* ================================================================== *)

Module Config.
Import JS.

Definition inRange (lo hi c : ascii) : bool :=
  (nat_of_ascii lo <=? nat_of_ascii c)%nat
  && (nat_of_ascii c <=? nat_of_ascii hi)%nat.

(** The class [[0-9a-fA-F]]. *)
Definition isHexDigit (c : ascii) : bool :=
  inRange "0" "9" c || inRange "a" "f" c || inRange "A" "F" c.

(** The class [[1-9A-HJ-NP-Za-km-z]]. *)
Definition isBase58 (c : ascii) : bool :=
  inRange "1" "9" c || inRange "A" "H" c || inRange "J" "N" c
  || inRange "P" "Z" c || inRange "a" "k" c || inRange "m" "z" c.

Definition allChars (f : ascii -> bool) (s : string) : bool :=
  forallb f (list_ascii_of_string s).

(** [!key] for an optional string: absent or empty. *)
Definition absent (key : option string) : bool :=
  match key with
  | None => true
  | Some k => String.eqb k ""
  end.

(** The refinement of [EVM_PRIVATE_KEY]:
    [/^[0-9a-fA-F]{64}$/] on the key without its ["0x"]. *)
Definition evmPrivateKeyOk (key : option string) : bool :=
  match key with
  | None => true
  | Some k =>
      if String.eqb k "" then true
      else
        let cleanKey := if Stream.startsWith "0x" k then Stream.slice 2 k else k in
        (String.length cleanKey =? 64)%nat && allChars isHexDigit cleanKey
  end.

(** The refinement of [SOLANA_PRIVATE_KEY] and of
    [SOLANA_GAS_PAYER_PRIVATE_KEY]: [/^[1-9A-HJ-NP-Za-km-z]{44,88}$/]. *)
Definition solanaPrivateKeyOk (key : option string) : bool :=
  match key with
  | None => true
  | Some k =>
      if String.eqb k "" then true
      else (44 <=? String.length k)%nat && (String.length k <=? 88)%nat
           && allChars isBase58 k
  end.

Record RpcUrls : Type := {
  base : string;
  arbitrum : string;
  solana : string
}.

Record Config : Type := {
  zeroexApiKey : string;
  evmPrivateKey : option string;
  solanaPrivateKey : option string;
  solanaGasPayerPrivateKey : option string;
  evmReceiverAddress : option string;
  solanaReceiverAddress : option string;
  rpcUrls : RpcUrls
}.

Section Load.
(** The checks of the libraries: [isAddress] of viem, [isAddress] of
    @solana/addresses ([None] when it throws) and the URL check of
    [z.string().url()]. *)
Variable isEvmAddress : string -> bool.
Variable isSolanaAddress : string -> option bool.
Variable isUrl : string -> bool.

Definition evmReceiverOk (address : option string) : bool :=
  match address with
  | None => true
  | Some a => if String.eqb a "" then true else isEvmAddress a
  end.

Definition solanaReceiverOk (address : option string) : bool :=
  match address with
  | None => true
  | Some a =>
      if String.eqb a "" then true
      else match isSolanaAddress a with
           | Some b => b
           | None => false
           end
  end.

(** [z.string().url().default(d)]: the default stands in for a variable
    that is not set; the value is then checked as a URL. *)
Definition urlOrDefault (d : string) (v : option string) : option string :=
  let u := match v with Some u => u | None => d end in
  if isUrl u then Some u else None.

(** [z.string().optional().refine(ok)]. *)
Definition refined (ok : option string -> bool) (v : option string)
  : option (option string) :=
  if ok v then Some v else None.

(** [loadConfig()] on the environment [env]; [None] for the ZodError. *)
Definition loadConfig (env : string -> option string) : option Config :=
  match env "ZEROEX_API_KEY",
        refined evmPrivateKeyOk (env "EVM_PRIVATE_KEY"),
        refined solanaPrivateKeyOk (env "SOLANA_PRIVATE_KEY"),
        refined solanaPrivateKeyOk (env "SOLANA_GAS_PAYER_PRIVATE_KEY"),
        refined evmReceiverOk (env "EVM_RECEIVER_ADDRESS"),
        refined solanaReceiverOk (env "SOLANA_RECEIVER_ADDRESS"),
        urlOrDefault "https://mainnet.base.org" (env "BASE_RPC_URL"),
        urlOrDefault "https://arb1.arbitrum.io/rpc" (env "ARBITRUM_RPC_URL"),
        urlOrDefault "https://api.mainnet-beta.solana.com" (env "SOLANA_RPC_URL")
  with
  | Some apiKey, Some evmKey, Some solanaKey, Some gasPayerKey,
    Some evmReceiver, Some solanaReceiver, Some baseUrl, Some arbitrumUrl,
    Some solanaUrl =>
      Some {| zeroexApiKey := apiKey;
              evmPrivateKey := evmKey;
              solanaPrivateKey := solanaKey;
              solanaGasPayerPrivateKey := gasPayerKey;
              evmReceiverAddress := evmReceiver;
              solanaReceiverAddress := solanaReceiver;
              rpcUrls := {| base := baseUrl; arbitrum := arbitrumUrl;
                            solana := solanaUrl |} |}
  | _, _, _, _, _, _, _, _, _ => None
  end.
End Load.

(** [DEFAULT_ADDRESSES]. *)
Definition DEFAULT_EVM : string := "0xABf40AADf960e20B4283dc5A06387A429Ba02456".
Definition DEFAULT_SOLANA : string := "9FzTJNUfMVSPPNEsUDfUHuE1gSE7uDBamcGHq1CseUUZ".

(** How an example script starts, once the configuration is loaded
    ([solanaToBaseExample], [baseToSolanaExample]). With a private key it
    first sets up a wallet (for Solana: [new Connection(rpcUrl)],
    [bs58.decode], [Keypair.fromSecretKey]; for Base:
    [privateKeyToAccount], [createWalletClient] over [http(rpcUrl)]),
    which is code of the libraries: [wallet rpcUrl key] is the address of
    the wallet, [None] when the set-up throws. Then come the choice of the
    receiver and the safety check. *)
Record Start : Type := {
  hasWallet : bool;           (* a private key is configured *)
  userAddress : string;       (* the wallet's address, or the default one *)
  receiverAddress : string    (* configured || default *)
}.

Inductive Started : Type :=
| WalletThrows           (* the set-up of the wallet throws: the script
                            rejects before it gets to the safety check *)
| SafetyStop             (* the early [return] of the safety check *)
| Proceeds (s : Start).  (* it goes on to the quote *)

Definition start (wallet : string -> option string)
  (defaultSender defaultReceiver : string)
  (privateKey receiver : option string) : Started :=
  match (match privateKey with
         | Some key => if String.eqb key "" then Some defaultSender
                       else wallet key
         | None => Some defaultSender
         end) with
  | None => WalletThrows
  | Some userAddress =>
      let receiverAddress :=
        match receiver with
        | Some r => if String.eqb r "" then defaultReceiver else r
        | None => defaultReceiver
        end in
      if negb (absent privateKey) && absent receiver then SafetyStop
      else Proceeds {| hasWallet := negb (absent privateKey);
                       userAddress := userAddress;
                       receiverAddress := receiverAddress |}
  end.

(** [solanaToBaseExample]: Solana key, EVM receiver. *)
Definition startSolanaToBase (solanaWallet : string -> string -> option string)
  (c : Config) : Started :=
  start (solanaWallet (solana (rpcUrls c))) DEFAULT_SOLANA DEFAULT_EVM
        (solanaPrivateKey c) (evmReceiverAddress c).

(** [baseToSolanaExample]: EVM key, Solana receiver. *)
Definition startBaseToSolana (evmWallet : string -> string -> option string)
  (c : Config) : Started :=
  start (evmWallet (base (rpcUrls c))) DEFAULT_EVM DEFAULT_SOLANA
        (evmPrivateKey c) (solanaReceiverAddress c).

(** An environment for the examples: a Solana key of 88 base58
    characters and an EVM receiver. *)
Definition sampleKey : string :=
  "4NMwxzmYj2uvHuq8xoqhY8RXg63KSVJM1DXkpbmkUY7YQWuoyQgFnnzn6yo3CMnqZasnNPNuAT2TLwQsCaKkUddp".
Definition sampleReceiver : string :=
  "0x1111111111111111111111111111111111111111".
Definition sampleSender : string :=
  "7xKXtg2CW87d97TXJSDpbD5jBkheTqA83TZRuJosgAsU".

Definition sampleEnv (name : string) : option string :=
  if String.eqb name "ZEROEX_API_KEY" then Some "key"
  else if String.eqb name "SOLANA_PRIVATE_KEY" then Some sampleKey
  else if String.eqb name "EVM_RECEIVER_ADDRESS" then Some sampleReceiver
  else None.

(** The same environment without the receiver. *)
Definition sampleEnvNoReceiver (name : string) : option string :=
  if String.eqb name "EVM_RECEIVER_ADDRESS" then None else sampleEnv name.

(** Stand-ins for the code of the libraries, good enough for the sample
    environment: the checks of addresses and URLs, and a wallet set-up
    that takes keys of 88 characters only. *)
Definition sampleIsEvmAddress (a : string) : bool :=
  Stream.startsWith "0x" a && (String.length a =? 42)%nat
  && allChars isHexDigit (Stream.slice 2 a).
Definition sampleIsSolanaAddress (a : string) : option bool :=
  Some (allChars isBase58 a).
Definition sampleIsUrl (u : string) : bool := Stream.startsWith "https://" u.
Definition sampleSolanaWallet (rpcUrl key : string) : option string :=
  if (String.length key =? 88)%nat then Some sampleSender else None.

End Config.

(* ================================================================== *)
(** ** How the example scripts use the monitor
       (src/fromSolanaToEvm.ts, src/fromSolanaToEvmWithGasPayer.ts,
       fromEvmToSolana.ts) *)
(* ================================================================== *)

Module Script.
Import JS Monitor.

(** The options that the scripts pass; their [onUpdate] only logs the
    status it gets. *)
Definition monitorOptions : Options :=
  {| maxAttempts := Some 120; intervalMs := Some 5000; onUpdate := true |}.

(** What the script prints after the monitoring. *)
Inductive Report : Type :=
| CompletedSuccessfully
    (* "Cross-chain swap completed successfully!" *)
| DidNotComplete (reason : option string)
    (* "Cross-chain swap did not complete successfully", and
       `Reason: ${finalStatus.subStatus}` when there is one *)
| MonitoringFailed (e : JsError).
    (* the [catch]: "Monitoring failed, but transaction may still succeed" *)

Definition report (out : Outcome) : Report :=
  match out with
  | Returned finalStatus =>
      if String.eqb (status finalStatus) "destination_tx_succeeded"
         || String.eqb (status finalStatus) "bridge_filled"
      then CompletedSuccessfully
      else DidNotComplete
             match subStatus finalStatus with
             | Some reason => if String.eqb reason "" then None else Some reason
             | None => None
             end
  | Threw e => MonitoringFailed e
  end.

(** The [try] around [monitorTransaction] and what follows it. *)
Definition monitorAndReport (remote : Remote) (request : CrossChainStatusRequest)
  : option (World * Report) :=
  match monitorTransaction remote request monitorOptions with
  | Some (w, out) => Some (w, report out)
  | None => None
  end.

(** The time spent in the delays of a log, in milliseconds. *)
Definition totalDelay (l : list Effect) : Z := fold_right Z.add 0 (sleeps l).

(** The final statuses that the scripts report as a failure. *)
Definition failureStates : list string :=
  [ "destination_tx_failed"; "destination_tx_reverted"; "bridge_failed";
    "refund_succeeded"; "refund_failed"; "origin_tx_reverted" ].

End Script.

(* ================================================================== *)
(** ** Vocabulary for further statements on the monitor *)
(* ================================================================== *)

Module MonitorVocabulary.
Import JS Monitor.

(** The members that [CrossChainStatusResponseSchema] reads. *)
Definition statusKeys : list string :=
  ["status"; "subStatus"; "bridge"; "transactions"; "zid"].

(** The members that the schema requires, and those it lets be absent. *)
Definition requiredStatusKeys : list string := ["status"; "transactions"; "zid"].
Definition optionalStatusKeys : list string := ["subStatus"; "bridge"].

End MonitorVocabulary.

(* ================================================================== *)
(** ** Properties of the transaction monitor *)
(* ================================================================== *)

Module MonitorFacts.
Import JS Monitor.

#[local] Arguments includes : simpl never.
Local Open Scope list_scope.

(** Bring a log built by [emit] to the form [old ++ added]. *)
Ltac norm_log :=
  unfold emit; cbn [calls log]; rewrite <- ?app_assoc; cbn [app].

Lemma getStatus_attemptResult remote request w :
  getStatus remote request w =
  ({| calls := S (calls w); log := log w ++ [Fetch request] |},
   attemptResult remote request (calls w)).
Proof.
  unfold attemptResult, getStatus; simpl.
  destruct (remote request (calls w)) as [m | r]; [reflexivity |].
  destruct (negb (Monitor.resp_ok r)); [reflexivity |].
  destruct (resp_json r) as [data |]; [| reflexivity].
  destruct (CrossChainStatusResponseSchema_parse data); reflexivity.
Qed.

Lemma includes_In l s : includes l s = true <-> In s l.
Proof.
  unfold includes. rewrite existsb_exists. split.
  - intros [x [Hin Heq]]. apply String.eqb_eq in Heq. now subst.
  - intros Hin. exists s. split; [assumption | apply String.eqb_refl].
Qed.

(** The schema lets only the enumerated statuses through. *)
Lemma schema_status_enumerated data s :
  CrossChainStatusResponseSchema_parse data = Some s ->
  In (status s) statusEnum.
Proof.
  unfold CrossChainStatusResponseSchema_parse.
  destruct data as [| | | | | | props]; try discriminate.
  destruct (parse_required (parse_enum statusEnum) (obj_get "status" props))
    as [st |] eqn:Hst; [| discriminate].
  destruct (parse_optional _ (obj_get "subStatus" props)); [| discriminate].
  destruct (parse_optional _ (obj_get "bridge" props)); [| discriminate].
  destruct (parse_required _ (obj_get "transactions" props)); [| discriminate].
  destruct (parse_required _ (obj_get "zid" props)); [| discriminate].
  intros [= <-]. simpl.
  unfold parse_required in Hst.
  destruct (obj_get "status" props) as [v |]; [| discriminate].
  unfold parse_enum in Hst. destruct v as [| | | | str | |]; try discriminate Hst.
  destruct (includes statusEnum str) eqn:Hinc; [| discriminate Hst].
  injection Hst as <-. exact (proj1 (includes_In statusEnum str) Hinc).
Qed.

Lemma attemptResult_enumerated remote request i s :
  attemptResult remote request i = inr s -> In (status s) statusEnum.
Proof.
  unfold attemptResult, getStatus; simpl.
  destruct (remote request i) as [m | r]; [discriminate |].
  destruct (negb (Monitor.resp_ok r)); [discriminate |].
  destruct (resp_json r) as [data |]; [| discriminate].
  destruct (CrossChainStatusResponseSchema_parse data) eqn:Hp; [| discriminate].
  intros [= <-]. eapply schema_status_enumerated; eassumption.
Qed.

Section LoopFacts.
Variable remote : Remote.
Variable request : CrossChainStatusRequest.
Variables (N ms : Z) (upd : bool).

Local Abbreviation loop := (monitorLoop remote request N ms upd).
Local Abbreviation result := (attemptResult remote request).

Local Abbreviation pendingSegment := (Monitor.pendingSegment request ms upd).
Local Abbreviation pendingLog := (Monitor.pendingLog remote request ms upd).

Lemma loop_pending_step fuel attempt w :
  attempt < N - 1 ->
  pending (result (calls w)) = true ->
  loop (S fuel) attempt w =
  loop fuel (attempt + 1)
    {| calls := S (calls w);
       log := log w ++ pendingSegment attempt (result (calls w)) |}.
Proof.
  intros Hlt Hpend. simpl.
  rewrite getStatus_attemptResult.
  assert (Hg : (attempt <? N) = true) by (apply Z.ltb_lt; lia).
  assert (Hg1 : (attempt <? N - 1) = true) by (apply Z.ltb_lt; lia).
  assert (Hg2 : (attempt =? N - 1) = false) by (apply Z.eqb_neq; lia).
  rewrite Hg. unfold Monitor.pendingSegment.
  destruct (result (calls w)) as [e | s]; simpl in *.
  - rewrite Hg2. unfold emit; simpl. now rewrite <- !app_assoc.
  - unfold isFinal in Hpend. apply negb_true_iff in Hpend. rewrite Hpend, Hg1.
    destruct upd; unfold emit; simpl; now rewrite <- !app_assoc.
Qed.

Lemma loop_pending_prefix j : forall fuel attempt w,
  attempt + Z.of_nat j <= N - 1 ->
  (forall i, (i < j)%nat -> pending (result (calls w + i)) = true) ->
  loop (j + fuel) attempt w =
  loop fuel (attempt + Z.of_nat j)
    {| calls := calls w + j;
       log := log w ++ pendingLog attempt (calls w) j |}.
Proof.
  induction j as [| j IH]; intros fuel attempt w Hle Hpend.
  - simpl. rewrite Z.add_0_r, Nat.add_0_r, app_nil_r. now destruct w.
  - change (S j + fuel)%nat with (S (j + fuel)).
    rewrite loop_pending_step;
      [| lia | specialize (Hpend 0%nat); rewrite Nat.add_0_r in Hpend;
               apply Hpend; lia].
    rewrite IH; simpl calls; simpl log.
    + f_equal; [lia |]. f_equal; [lia |]. now rewrite <- app_assoc.
    + lia.
    + intros i Hi. specialize (Hpend (S i)).
      replace (S (calls w) + i)%nat with (calls w + S i)%nat by lia.
      apply Hpend. lia.
Qed.

(** With fuel for the iterations left the loop always finishes; it only
    adds to the log, and what it adds starts with a fetch when the
    counter is below [N]. *)
Lemma loop_total fuel : forall attempt w,
  (Z.to_nat (N - attempt) <= fuel)%nat ->
  exists w' out ext,
    loop fuel attempt w = Some (w', out) /\ log w' = log w ++ ext
    /\ (attempt < N -> hd_error ext = Some (Fetch request)).
Proof.
  induction fuel as [| fuel IH]; intros attempt w Hfuel; simpl.
  - assert (Hg : (attempt <? N) = false) by (apply Z.ltb_ge; lia).
    rewrite Hg. exists w, (Threw (MonitoringTimedOut N)), [].
    rewrite app_nil_r. repeat split. apply Z.ltb_ge in Hg. lia.
  - destruct (attempt <? N) eqn:Hg.
    2:{ exists w, (Threw (MonitoringTimedOut N)), []. rewrite app_nil_r.
        repeat split. apply Z.ltb_ge in Hg. lia. }
    apply Z.ltb_lt in Hg.
    rewrite getStatus_attemptResult.
    destruct (attemptResult remote request (calls w)) as [e | s].
    + destruct (attempt =? N - 1).
      * eexists _, _, _. split; [reflexivity |]. simpl.
        split; [now rewrite <- app_assoc | reflexivity].
      * match goal with
        | |- context [monitorLoop _ _ _ _ _ fuel (attempt + 1) ?w1] =>
            destruct (IH (attempt + 1) w1)
              as (w' & out & ext & Hrun & Hlog & _); [lia |]
        end.
        rewrite Hrun.
        eexists _, _, _. split; [reflexivity |]. rewrite Hlog. simpl.
        split; [now rewrite <- !app_assoc | reflexivity].
    + destruct (includes finalStates (status s)).
      * destruct upd; eexists _, _, _; (split; [reflexivity |]); simpl;
          (split; [now rewrite <- ?app_assoc | reflexivity]).
      * match goal with
        | |- context [monitorLoop _ _ _ _ _ fuel (attempt + 1) ?w1] =>
            destruct (IH (attempt + 1) w1)
              as (w' & out & ext & Hrun & Hlog & _); [lia |]
        end.
        rewrite Hrun.
        destruct upd, (attempt <? N - 1); eexists _, _, _;
          (split; [reflexivity |]); rewrite Hlog; simpl in *;
          (split; [now rewrite <- ?app_assoc | reflexivity]).
Qed.

(** The last attempt gives a status that is not final: time-out. *)
Lemma loop_last_pending fuel w s :
  result (calls w) = inr s -> isFinal s = false ->
  loop (S fuel) (N - 1) w =
  Some ({| calls := S (calls w);
           log := log w ++ Fetch request :: (if upd then [OnUpdate s] else []) |},
        Threw (MonitoringTimedOut N)).
Proof.
  intros Hres Hfin. simpl.
  rewrite getStatus_attemptResult. rewrite Hres.
  assert (Hg : (N - 1 <? N) = true) by (apply Z.ltb_lt; lia).
  assert (Hg1 : (N - 1 <? N - 1) = false) by (apply Z.ltb_ge; lia).
  assert (Hg2 : (N - 1 + 1 <? N) = false) by (apply Z.ltb_ge; lia).
  unfold isFinal in Hfin. rewrite Hg, Hfin, Hg1.
  destruct fuel; simpl; rewrite Hg2; destruct upd; now norm_log.
Qed.

(** An attempt gives a final status: it is returned. *)
Lemma loop_final fuel attempt w s :
  attempt < N ->
  result (calls w) = inr s -> isFinal s = true ->
  loop (S fuel) attempt w =
  Some ({| calls := S (calls w);
           log := log w ++ Fetch request :: (if upd then [OnUpdate s] else []) |},
        Returned s).
Proof.
  intros Hlt Hres Hfin. simpl.
  rewrite getStatus_attemptResult. rewrite Hres.
  assert (Hg : (attempt <? N) = true) by (apply Z.ltb_lt; lia).
  unfold isFinal in Hfin. rewrite Hg, Hfin.
  destruct upd; now norm_log.
Qed.

(** The last attempt fails: its error is thrown. *)
Lemma loop_last_fails fuel w e :
  result (calls w) = inl e ->
  loop (S fuel) (N - 1) w =
  Some ({| calls := S (calls w);
           log := log w ++ [Fetch request; Warn N e] |}, Threw e).
Proof.
  intros Hres. simpl.
  rewrite getStatus_attemptResult. rewrite Hres.
  assert (Hg : (N - 1 <? N) = true) by (apply Z.ltb_lt; lia).
  rewrite Hg, Z.eqb_refl. unfold emit. simpl.
  replace (N - 1 + 1) with N by lia. now rewrite <- app_assoc.
Qed.

(** Whatever the loop returns was fetched. *)
Lemma loop_returned_fetched fuel : forall attempt w w' s,
  loop fuel attempt w = Some (w', Returned s) ->
  exists i, result i = inr s.
Proof.
  induction fuel as [| fuel IH]; intros attempt w w' s; simpl.
  - destruct (attempt <? N); discriminate.
  - destruct (attempt <? N); [| discriminate].
    rewrite getStatus_attemptResult.
    destruct (result (calls w)) as [e | s0] eqn:Hres.
    + destruct (attempt =? N - 1); [discriminate |]. apply IH.
    + destruct (includes finalStates (status s0)).
      * intros [= _ <-]. now exists (calls w).
      * apply IH.
Qed.

Lemma fetchedStatuses_S c n :
  fetchedStatuses remote request c (S n) =
  match result c with inr s => [s] | inl _ => [] end
  ++ fetchedStatuses remote request (S c) n.
Proof. reflexivity. Qed.

Lemma fetches_app l1 l2 : fetches (l1 ++ l2) = (fetches l1 + fetches l2)%nat.
Proof. unfold fetches. now rewrite filter_app, length_app. Qed.

Lemma updates_app l1 l2 : updates (l1 ++ l2) = updates l1 ++ updates l2.
Proof. apply flat_map_app. Qed.

(** The callback gets the status of each successful call, once and in
    order; the calls are the fetches of the log. *)
Lemma loop_updates fuel : forall attempt w w' out,
  loop fuel attempt w = Some (w', out) ->
  exists n,
    calls w' = (calls w + n)%nat
    /\ fetches (log w') = (fetches (log w) + n)%nat
    /\ updates (log w') =
       updates (log w)
       ++ (if upd then fetchedStatuses remote request (calls w) n else []).
Proof.
  assert (Hstop : forall w : World,
            calls w = (calls w + 0)%nat
            /\ fetches (log w) = (fetches (log w) + 0)%nat
            /\ updates (log w) =
               updates (log w)
               ++ (if upd then fetchedStatuses remote request (calls w) 0
                   else [])).
  { intros w. rewrite !Nat.add_0_r. destruct upd; now rewrite app_nil_r. }
  induction fuel as [| fuel IH]; intros attempt w w' out; simpl.
  - destruct (attempt <? N); [discriminate |]. intros [= <- _].
    exists 0%nat. apply Hstop.
  - destruct (attempt <? N); [| intros [= <- _]; exists 0%nat; apply Hstop].
    rewrite getStatus_attemptResult.
    destruct (result (calls w)) as [e | s] eqn:Hres;
      [destruct (attempt =? N - 1)
      | destruct (includes finalStates (status s))];
      intros Hrun.
    1, 3: injection Hrun as <- _; exists 1%nat.
    3, 4: apply IH in Hrun; destruct Hrun as (n & Hc & Hf & Hu);
          exists (S n); rewrite Hc, Hf, Hu.
    all: rewrite fetchedStatuses_S, Hres.
    all: destruct upd; try destruct (attempt <? N - 1); norm_log.
    all: rewrite ?fetches_app, ?updates_app; cbn [app]; unfold fetches.
    all: simpl; rewrite <- ?app_assoc, ?app_nil_r; simpl.
    all: repeat split; lia.
Qed.

(** Counting in the log of pending attempts. *)
Lemma schedule_app l1 l2 : schedule (l1 ++ l2) = schedule l1 ++ schedule l2.
Proof. apply filter_app. Qed.

Lemma schedule_pendingSegment attempt r :
  schedule (pendingSegment attempt r) = [Fetch request; Sleep ms].
Proof. unfold pendingSegment. destruct r; [| destruct upd]; reflexivity. Qed.

Lemma schedule_pendingLog j : forall attempt c,
  schedule (pendingLog attempt c j) ++ [Fetch request] = polls request ms (S j).
Proof.
  induction j as [| j IH]; intros attempt c; [reflexivity |].
  cbn [pendingLog]. rewrite schedule_app, schedule_pendingSegment.
  rewrite <- app_assoc, IH. reflexivity.
Qed.

Lemma fetches_polls n : fetches (polls request ms n) = n.
Proof.
  induction n as [| n IH]; [reflexivity |].
  destruct n as [| n]; [reflexivity |].
  change (fetches (polls request ms (S (S n))))
    with (S (fetches (polls request ms (S n)))).
  now rewrite IH.
Qed.

Lemma sleeps_polls n : sleeps (polls request ms n) = repeat ms (n - 1).
Proof.
  induction n as [| n IH]; [reflexivity |].
  destruct n as [| n]; [reflexivity |].
  change (sleeps (polls request ms (S (S n))))
    with (ms :: sleeps (polls request ms (S n))).
  rewrite IH. simpl. now rewrite Nat.sub_0_r.
Qed.

Lemma filter_schedule_fetch l : filter is_fetch (schedule l) = filter is_fetch l.
Proof.
  unfold schedule. induction l as [| e l IH]; [reflexivity |].
  destruct e; simpl; rewrite ?IH; reflexivity.
Qed.

Lemma fetches_schedule l : fetches (schedule l) = fetches l.
Proof. unfold fetches. now rewrite filter_schedule_fetch. Qed.

Lemma sleeps_schedule l : sleeps (schedule l) = sleeps l.
Proof.
  unfold schedule. induction l as [| e l IH]; [reflexivity |].
  destruct e; simpl; rewrite ?IH; reflexivity.
Qed.

End LoopFacts.




(** C8. With [maxAttempts <= 0] the monitor fetches nothing, calls no
    callback, never waits, and fails at once with the time-out error that
    reports this [maxAttempts]. *)
Theorem monitor_without_budget_times_out_at_once :
  forall remote request options N,
    maxAttempts options = Some N ->
    N <= 0 ->
    monitorTransaction remote request options
      = Some ({| calls := 0; log := [] |}, Threw (MonitoringTimedOut N)).
Proof.
  intros remote request options N HN Hle.
  unfold monitorTransaction, attemptBudget. rewrite HN. cbn [default].
  replace (Z.to_nat N) with 0%nat by lia.
  cbn [monitorLoop].
  assert (Hg : (0 <? N) = false) by (apply Z.ltb_ge; lia).
  now rewrite Hg.
Qed.

(** *** The theorems at sample inputs *)




Lemma monitor_without_budget_times_out_at_once_witness :
  monitorTransaction Samples.pendingRemote Samples.request (Samples.options 0)
    = Some ({| calls := 0; log := [] |}, Threw (MonitoringTimedOut 0))
  /\ monitorTransaction Samples.pendingRemote Samples.request (Samples.options (-2))
     = Some ({| calls := 0; log := [] |}, Threw (MonitoringTimedOut (-2))).
Proof.
  split.
  - apply (monitor_without_budget_times_out_at_once
             Samples.pendingRemote Samples.request (Samples.options 0) 0);
      [reflexivity | lia].
  - apply (monitor_without_budget_times_out_at_once
             Samples.pendingRemote Samples.request (Samples.options (-2)) (-2));
      [reflexivity | lia].
Defined.

End MonitorFacts.

(* ================================================================== *)
(** ** Properties of the streaming-quote consumer *)
(* ================================================================== *)

Module StreamFacts.
Import JS Stream.

Local Open Scope list_scope.

(** Case analysis on an innermost [match] of the goal. *)
Ltac break_match :=
  match goal with
  | |- context [match ?x with _ => _ end] =>
      lazymatch x with
      | context [match _ with _ => _ end] => fail
      | _ => destruct x eqn:?
      end
  end.

(** *** Lines and the carry-over buffer *)

Lemma append_assoc (a b c : string) : ((a ++ b) ++ c = a ++ (b ++ c))%string.
Proof. induction a as [| x a IH]; simpl; [reflexivity | now rewrite IH]. Qed.

Lemma append_empty_r (a : string) : (a ++ "")%string = a.
Proof. induction a as [| x a IH]; simpl; [reflexivity | now rewrite IH]. Qed.

Lemma noNewline_cons c s :
  noNewline (String c s) = negb (Ascii.eqb c newline) && noNewline s.
Proof. reflexivity. Qed.

Lemma noNewline_append a b :
  noNewline (a ++ b)%string = noNewline a && noNewline b.
Proof.
  induction a as [| c a IH]; [reflexivity |].
  simpl append. rewrite !noNewline_cons, IH. apply andb_assoc.
Qed.

(** A text without line feed is a single segment. *)
Lemma split_newline_fragment frag :
  noNewline frag = true -> split_newline frag = [frag].
Proof.
  induction frag as [| c frag IH]; [reflexivity |].
  rewrite noNewline_cons. intros H. apply andb_true_iff in H as [Hc Hrest].
  simpl. apply negb_true_iff in Hc. rewrite Hc, (IH Hrest). reflexivity.
Qed.

Lemma split_newline_line line rest :
  noNewline line = true ->
  split_newline (line ++ String newline rest)%string
  = line :: split_newline rest.
Proof.
  induction line as [| c line IH].
  - intros _. simpl. rewrite ?Ascii.eqb_refl. reflexivity.
  - rewrite noNewline_cons. intros H. apply andb_true_iff in H as [Hc Hline].
    simpl. apply negb_true_iff in Hc. rewrite Hc, (IH Hline). reflexivity.
Qed.

(** [split] gives back the lines and, last, the fragment after them. *)
Lemma split_newline_unlines lines frag :
  Forall (fun l => noNewline l = true) lines ->
  noNewline frag = true ->
  split_newline (unlines lines ++ frag)%string = lines ++ [frag].
Proof.
  intros Hlines Hfrag. induction Hlines as [| line lines Hline _ IH]; simpl.
  - now apply split_newline_fragment.
  - rewrite append_assoc. simpl append.
    rewrite split_newline_line by assumption. now rewrite IH.
Qed.

Lemma pop_snoc {A} (l : list A) (x : A) : pop (l ++ [x]) = (Some x, l).
Proof.
  induction l as [| y l IH]; [reflexivity |].
  simpl app. cbn [pop]. rewrite IH.
  destruct (l ++ [x]) eqn:E; [| reflexivity].
  now destruct l.
Qed.

Lemma or_empty_Some s : or_empty (Some s) = s.
Proof.
  unfold or_empty. destruct (String.eqb s "") eqn:E; [| reflexivity].
  apply String.eqb_eq in E. now subst.
Qed.

(** Every text is some lines, each closed by a line feed, and a fragment
    without line feed. *)
Lemma unlines_decomposition s :
  exists lines frag,
    s = (unlines lines ++ frag)%string
    /\ Forall (fun l => noNewline l = true) lines
    /\ noNewline frag = true.
Proof.
  induction s as [| c s (lines & frag & Hs & Hlines & Hfrag)].
  - exists [], ""%string. repeat split. constructor.
  - destruct (Ascii.eqb c newline) eqn:Hc.
    + apply Ascii.eqb_eq in Hc. subst c.
      exists (""%string :: lines), frag. simpl. rewrite <- Hs.
      repeat split; [constructor; [reflexivity | assumption] | assumption].
    + destruct lines as [| line lines].
      * exists [], (String c frag). simpl in *. subst s.
        repeat split; [constructor |].
        rewrite noNewline_cons, Hc. exact Hfrag.
      * exists (String c line :: lines), frag. simpl in *. subst s.
        inversion Hlines as [| ? ? Hline Hrest]; subst.
        repeat split; [| assumption].
        constructor; [| assumption].
        rewrite noNewline_cons, Hc. exact Hline.
Qed.

Lemma unlines_app l1 l2 :
  unlines (l1 ++ l2) = (unlines l1 ++ unlines l2)%string.
Proof.
  induction l1 as [| l l1 IH]; [reflexivity |].
  simpl. rewrite IH, append_assoc. reflexivity.
Qed.

(** *** Object literals *)

Lemma obj_set_fresh k v props :
  ~ In k (keys props) -> obj_set k v props = props ++ [(k, v)].
Proof.
  induction props as [| [k' v'] props IH]; intros Hfresh; [reflexivity |].
  simpl in *. destruct (String.eqb k k') eqn:E.
  - apply String.eqb_eq in E. subst. tauto.
  - rewrite IH; [reflexivity | tauto].
Qed.

Lemma obj_set_keys k v props :
  keys (obj_set k v props) = keys props
  \/ (~ In k (keys props) /\ keys (obj_set k v props) = keys props ++ [k]).
Proof.
  induction props as [| [k' v'] props IH]; simpl.
  - right. split; [tauto | reflexivity].
  - destruct (String.eqb k k') eqn:E; [now left |].
    apply String.eqb_neq in E.
    destruct IH as [IH | [Hfresh IH]]; simpl; rewrite IH.
    + now left.
    + right. split; [| reflexivity]. intros [H | H]; [congruence | tauto].
Qed.

Lemma obj_set_NoDup k v props :
  NoDup (keys props) -> NoDup (keys (obj_set k v props)).
Proof.
  intros Hnd. destruct (obj_set_keys k v props) as [-> | [Hfresh ->]];
    [assumption |].
  apply NoDup_app; [assumption | repeat constructor; simpl; tauto |].
  intros x Hx [<- | []]. contradiction.
Qed.

Lemma fold_obj_set_NoDup l : forall acc,
  NoDup (keys acc) ->
  NoDup (keys (fold_left (fun o kv => obj_set (fst kv) (snd kv) o) l acc)).
Proof.
  induction l as [| [k v] l IH]; intros acc Hacc; [assumption |].
  simpl. apply IH. now apply obj_set_NoDup.
Qed.

(** What [{...v}] builds has no repeated key. *)
Lemma spread_NoDup v : NoDup (keys (spread v [])).
Proof. apply fold_obj_set_NoDup. constructor. Qed.

Lemma fold_obj_set_fresh l : forall acc,
  NoDup (keys l) ->
  (forall k, In k (keys l) -> ~ In k (keys acc)) ->
  fold_left (fun o kv => obj_set (fst kv) (snd kv) o) l acc = acc ++ l.
Proof.
  induction l as [| [k v] l IH]; intros acc Hnd Hdisj; simpl.
  - now rewrite app_nil_r.
  - inversion Hnd as [| ? ? Hk Hl]; subst.
    rewrite obj_set_fresh by (apply Hdisj; now left).
    rewrite IH; [now rewrite <- app_assoc | assumption |].
    intros k' Hin. unfold keys. rewrite map_app, in_app_iff. simpl.
    intros [H | [<- | []]]; [| contradiction].
    apply (Hdisj k'); [now right | exact H].
Qed.

(** Copying an object without repeated keys gives the same object. *)
Lemma spread_object props :
  NoDup (keys props) -> spread (VObj props) [] = props.
Proof.
  intros Hnd. unfold spread. simpl own_props.
  rewrite fold_obj_set_fresh; [reflexivity | assumption | intros k _ []].
Qed.

(** *** [trim] *)

Lemma trimStart_empty_iff s : trimStart s = ""%string <-> whiteSpaceOnly s = true.
Proof.
  unfold whiteSpaceOnly. induction s as [| c s IH]; simpl.
  - tauto.
  - destruct (isWhiteSpace c); simpl; [exact IH |].
    split; discriminate.
Qed.

Lemma whiteSpaceOnly_trimStart s :
  whiteSpaceOnly (trimStart s) = whiteSpaceOnly s.
Proof.
  unfold whiteSpaceOnly. induction s as [| c s IH]; simpl; [reflexivity |].
  destruct (isWhiteSpace c) eqn:Hc; simpl; [exact IH | now rewrite Hc].
Qed.

Lemma forallb_rev {A} (f : A -> bool) l : forallb f (rev l) = forallb f l.
Proof.
  induction l as [| x l IH]; [reflexivity |].
  simpl. rewrite forallb_app, IH. simpl. rewrite andb_true_r. apply andb_comm.
Qed.

Lemma whiteSpaceOnly_reverse s : whiteSpaceOnly (reverse s) = whiteSpaceOnly s.
Proof.
  unfold whiteSpaceOnly, reverse.
  now rewrite list_ascii_of_string_of_list_ascii, forallb_rev.
Qed.

Lemma reverse_empty_iff s : reverse s = ""%string <-> s = ""%string.
Proof.
  unfold reverse. split.
  - intros H. apply (f_equal list_ascii_of_string) in H.
    rewrite list_ascii_of_string_of_list_ascii in H. simpl in H.
    destruct s as [| c s]; [reflexivity |]. simpl in H.
    now destruct (rev (list_ascii_of_string s)).
  - now intros ->.
Qed.

(** [s.trim() === ""] exactly when [s] is empty or all white space. *)
Lemma trim_empty_iff s : trim s = ""%string <-> whiteSpaceOnly s = true.
Proof.
  unfold trim. rewrite reverse_empty_iff, trimStart_empty_iff.
  now rewrite whiteSpaceOnly_reverse, whiteSpaceOnly_trimStart.
Qed.

Lemma trim_eqb s : String.eqb (trim s) "" = whiteSpaceOnly s.
Proof.
  destruct (whiteSpaceOnly s) eqn:H.
  - apply String.eqb_eq. now apply trim_empty_iff.
  - apply String.eqb_neq. intros Ht. apply trim_empty_iff in Ht. congruence.
Qed.

Section ConsumerFacts.
Variable JSON_parse : string -> option Value.
Variable Decoder : Type.
Variable newTextDecoder : Decoder.
Variable decodeByte : Decoder -> Byte.byte -> Decoder * string.

Local Abbreviation decode := (Stream.decode Decoder decodeByte).
Local Abbreviation processLine := (Stream.processLine JSON_parse).
Local Abbreviation processLines := (Stream.processLines JSON_parse).
Local Abbreviation readLoop :=
  (Stream.readLoop JSON_parse Decoder decodeByte).
Local Abbreviation startStreaming :=
  (Stream.startStreaming JSON_parse Decoder newTextDecoder decodeByte).

Local Abbreviation tryBody := (Stream.tryBody JSON_parse).

(** *** One line *)

Lemma processLine_data st rest :
  processLine st ("data: " ++ rest)%string =
  if whiteSpaceOnly rest then Normal st []
  else
    match tryBody st rest with
    | Ok c => c
    | Throw _ => Normal (setError ParseErrorMessage st) [ParseError rest]
    end.
Proof.
  unfold Stream.processLine.
  change (startsWith "data: " ("data: " ++ rest)%string)
    with (String.prefix "" rest).
  change (slice 6 ("data: " ++ rest)%string) with rest.
  rewrite trim_eqb. now destruct rest.
Qed.

Lemma processLine_other st line :
  startsWith "data: " line = false -> processLine st line = Normal st [].
Proof. intros H. unfold Stream.processLine. now rewrite H. Qed.

(** The [try] body reads the state only for the number of routes. *)
Lemma tryBody_same_routes st1 st2 eventData :
  routes st1 = routes st2 ->
  match tryBody st1 eventData, tryBody st2 eventData with
  | Ok c1, Ok c2 =>
      returned c1 = returned c2 /\ eventsOf c1 = eventsOf c2
      /\ routes (stateOf c1) = routes (stateOf c2)
  | Throw _, Throw _ => True
  | _, _ => False
  end.
Proof.
  intros Hroutes. unfold Stream.tryBody, bind, appendRoute.
  rewrite Hroutes.
  repeat (break_match; simpl; auto).
Qed.

(** A line that falls through emits no terminal event; a line that
    returns emits exactly one event, a terminal one. *)
Lemma tryBody_events st eventData :
  match tryBody st eventData with
  | Ok (Normal _ events) =>
      forallb (fun e => negb (isTerminal e)) events = true
  | Ok (Return _ events) => exists e, events = [e] /\ isTerminal e = true
  | Throw _ => True
  end.
Proof.
  unfold Stream.tryBody, bind, appendRoute.
  repeat (break_match; simpl; eauto).
Qed.

Lemma processLine_events st line :
  match processLine st line with
  | Normal _ events => nonTerminal events = true
  | Return _ events => exists e, events = [e] /\ isTerminal e = true
  end.
Proof.
  unfold Stream.processLine.
  destruct (startsWith "data: " line); [| reflexivity].
  destruct (String.eqb (trim (slice 6 line)) ""); [reflexivity |].
  pose proof (tryBody_events st (slice 6 line)) as H.
  destruct (tryBody st (slice 6 line)) as [[st' ev | st' ev] | e];
    [exact H | exact H | reflexivity].
Qed.

Lemma processLine_same_routes st1 st2 line :
  routes st1 = routes st2 ->
  returned (processLine st1 line) = returned (processLine st2 line)
  /\ eventsOf (processLine st1 line) = eventsOf (processLine st2 line)
  /\ routes (stateOf (processLine st1 line))
     = routes (stateOf (processLine st2 line)).
Proof.
  intros Hroutes. unfold Stream.processLine.
  destruct (startsWith "data: " line); [| now repeat split].
  destruct (String.eqb (trim (slice 6 line)) ""); [now repeat split |].
  pose proof (tryBody_same_routes st1 st2 (slice 6 line) Hroutes) as H.
  destruct (tryBody st1 (slice 6 line)) as [c1 | e1],
           (tryBody st2 (slice 6 line)) as [c2 | e2];
    try contradiction; [exact H | now repeat split].
Qed.

Lemma processLines_same_routes lines : forall st1 st2,
  routes st1 = routes st2 ->
  returned (processLines st1 lines) = returned (processLines st2 lines)
  /\ eventsOf (processLines st1 lines) = eventsOf (processLines st2 lines)
  /\ routes (stateOf (processLines st1 lines))
     = routes (stateOf (processLines st2 lines)).
Proof.
  induction lines as [| line lines IH]; intros st1 st2 Hroutes; simpl.
  - now repeat split.
  - destruct (processLine_same_routes st1 st2 line Hroutes)
      as (Hret & Hev & Hr).
    destruct (processLine st1 line) as [s1 ev1 | s1 ev1],
             (processLine st2 line) as [s2 ev2 | s2 ev2];
      simpl in Hret, Hev, Hr; try discriminate; subst;
      [| now repeat split].
    destruct (IH s1 s2 Hr) as (Hret' & Hev' & Hr').
    destruct (processLines s1 lines), (processLines s2 lines);
      simpl in *; try discriminate; subst; now repeat split.
Qed.

Lemma nonTerminal_app l1 l2 :
  nonTerminal (l1 ++ l2) = nonTerminal l1 && nonTerminal l2.
Proof. apply forallb_app. Qed.

Lemma processLines_events lines : forall st,
  match processLines st lines with
  | Normal _ events => nonTerminal events = true
  | Return _ events =>
      exists before t, events = before ++ [t]
                       /\ nonTerminal before = true /\ isTerminal t = true
  end.
Proof.
  induction lines as [| line lines IH]; intros st; simpl; [reflexivity |].
  pose proof (processLine_events st line) as H1.
  destruct (processLine st line) as [st1 ev1 | st1 ev1].
  - specialize (IH st1).
    destruct (processLines st1 lines) as [st2 ev2 | st2 ev2].
    + rewrite nonTerminal_app, H1, IH. reflexivity.
    + destruct IH as (before & t & -> & Hb & Ht).
      exists (ev1 ++ before), t. rewrite app_assoc, nonTerminal_app, H1, Hb.
      now repeat split.
  - destruct H1 as (e & -> & He). exists [], e. now repeat split.
Qed.

Lemma readLoop_events reader : forall d buffer st,
  wellEnded (snd (readLoop reader d buffer st)).
Proof.
  induction reader as [| r reader IH]; intros d buffer st;
    cbn [Stream.readLoop]; [now left |].
  destruct r as [value | err]; [| now left].
  destruct (decode d value) as [d' text].
  destruct (pop (split_newline (buffer ++ text))) as [popped lines].
  pose proof (processLines_events lines st) as H.
  destruct (processLines st lines) as [st1 ev1 | st1 ev1].
  - specialize (IH d' (or_empty popped) st1).
    destruct (Stream.readLoop _ _ _ reader d' (or_empty popped) st1)
      as [st2 ev2].
    simpl in *. destruct IH as [Hn | (before & t & -> & Hb & Ht)].
    + left. now rewrite nonTerminal_app, H, Hn.
    + right. exists (ev1 ++ before), t.
      rewrite app_assoc, nonTerminal_app, H, Hb. now repeat split.
  - right. exact H.
Qed.

Lemma wellEnded_nothing_after events before e after :
  wellEnded events ->
  events = before ++ e :: after ->
  isTerminal e = true ->
  after = [].
Proof.
  intros [Hn | (pre & t & Hev & Hpre & Ht)] -> He.
  - unfold nonTerminal in Hn. rewrite forallb_app in Hn. simpl in Hn.
    rewrite He in Hn. simpl in Hn. rewrite andb_false_r in Hn. discriminate.
  - destruct (exists_last (l := e :: after)) as (body & x & Hlast);
      [discriminate |].
    destruct after as [| y after]; [reflexivity | exfalso].
    rewrite Hlast, app_assoc in Hev. apply app_inj_tail in Hev as [Hev _].
    assert (Hin : In e pre).
    { rewrite <- Hev. apply in_or_app. right.
      destruct body as [| b body]; [discriminate Hlast |].
      injection Hlast as <- _. now left. }
    unfold nonTerminal in Hpre. rewrite forallb_forall in Hpre.
    apply Hpre in Hin. rewrite He in Hin. discriminate.
Qed.

(** *** Streams *)

(** Readers that the loop cannot tell apart stay so behind any chunks. *)
Lemma readLoop_congruence before r1 r2 :
  (forall d buffer st, readLoop r1 d buffer st = readLoop r2 d buffer st) ->
  forall d buffer st,
    readLoop (before ++ r1) d buffer st = readLoop (before ++ r2) d buffer st.
Proof.
  intros Heq. induction before as [| r before IH]; intros d buffer st;
    [apply Heq |].
  simpl app. cbn [Stream.readLoop].
  destruct r as [value | err]; [| reflexivity].
  destruct (decode d value) as [d' text].
  destruct (pop (split_newline (buffer ++ text))) as [popped lines].
  destruct (processLines st lines); [| reflexivity].
  now rewrite IH.
Qed.

(** *** The decoder works through the bytes in order *)

Lemma decode_from d acc value :
  fold_left (fun acc b =>
               let (d', text) := decodeByte (fst acc) b in
               (d', (snd acc ++ text)%string))
            value (d, acc)
  = (fst (decode d value), (acc ++ snd (decode d value))%string).
Proof.
  unfold Stream.decode. revert d acc.
  induction value as [| b value IH]; intros d acc; simpl.
  - now rewrite append_empty_r.
  - destruct (decodeByte d b) as [d' text]. simpl.
    rewrite (IH d' (acc ++ text)%string), (IH d' text).
    simpl. now rewrite append_assoc.
Qed.

Lemma decode_app d a b :
  decode d (a ++ b)
  = (fst (decode (fst (decode d a)) b),
     (snd (decode d a) ++ snd (decode (fst (decode d a)) b))%string).
Proof.
  unfold Stream.decode at 1. rewrite fold_left_app.
  fold (decode d a). destruct (decode d a) as [d1 t1]. simpl.
  apply decode_from.
Qed.

(** *** Lines one after the other *)

Lemma processLines_app st l1 l2 :
  processLines st (l1 ++ l2) =
  match processLines st l1 with
  | Normal st' events =>
      match processLines st' l2 with
      | Normal st'' events' => Normal st'' (events ++ events')
      | Return st'' events' => Return st'' (events ++ events')
      end
  | Return st' events => Return st' events
  end.
Proof.
  revert st. induction l1 as [| line l1 IH]; intros st; simpl.
  - now destruct (processLines st l2).
  - destruct (processLine st line) as [st1 ev1 | st1 ev1]; [| reflexivity].
    rewrite IH.
    destruct (processLines st1 l1) as [st2 ev2 | st2 ev2]; [| reflexivity].
    destruct (processLines st2 l2); now rewrite app_assoc.
Qed.

(** *** One chunk *)

(** When buffer and chunk together hold the lines [lines] and the
    unfinished [frag], the loop body runs exactly [lines] and goes on
    with [frag] as the buffer. *)
Lemma readLoop_chunk value rest d buffer st lines frag :
  (buffer ++ snd (decode d value))%string = (unlines lines ++ frag)%string ->
  Forall (fun l => noNewline l = true) lines ->
  noNewline frag = true ->
  readLoop (Chunk value :: rest) d buffer st =
  match processLines st lines with
  | Normal st' events =>
      let (st'', events') :=
        readLoop rest (fst (decode d value)) frag st' in
      (st'', events ++ events')
  | Return st' events => (st', events)
  end.
Proof.
  intros Htext Hlines Hfrag. cbn [Stream.readLoop].
  destruct (decode d value) as [d' text]. simpl in Htext |- *.
  rewrite Htext, split_newline_unlines, pop_snoc, or_empty_Some by assumption.
  reflexivity.
Qed.

(** Cutting a chunk in two changes nothing. *)
Lemma readLoop_split a b rest d buffer st :
  readLoop (Chunk (a ++ b) :: rest) d buffer st
  = readLoop (Chunk a :: Chunk b :: rest) d buffer st.
Proof.
  destruct (unlines_decomposition (buffer ++ snd (decode d a))%string)
    as (l1 & f1 & H1 & Hl1 & Hf1).
  destruct (unlines_decomposition
              (f1 ++ snd (decode (fst (decode d a)) b))%string)
    as (l2 & f2 & H2 & Hl2 & Hf2).
  rewrite (readLoop_chunk a _ d buffer st l1 f1 H1 Hl1 Hf1).
  rewrite (readLoop_chunk (a ++ b) rest d buffer st (l1 ++ l2) f2).
  - rewrite processLines_app.
    destruct (processLines st l1) as [st1 ev1 | st1 ev1]; [| reflexivity].
    rewrite (readLoop_chunk b rest _ f1 st1 l2 f2 H2 Hl2 Hf2).
    rewrite decode_app. cbn [fst].
    destruct (processLines st1 l2) as [st2 ev2 | st2 ev2]; [| reflexivity].
    destruct (Stream.readLoop _ _ _ rest _ f2 st2) as [st3 ev3].
    now rewrite app_assoc.
  - rewrite decode_app. cbn [snd].
    rewrite <- append_assoc, H1, append_assoc, H2, unlines_app.
    now rewrite append_assoc.
  - apply Forall_app. now split.
  - assumption.
Qed.
(** A last chunk that brings no line feed is as good as absent. *)
Lemma readLoop_drop_fragment chunks value : forall d buffer st,
  noNewline buffer = true ->
  noNewline (snd (decode (fst (decode d (List.concat chunks))) value)) = true ->
  readLoop (map Chunk chunks ++ [Chunk value]) d buffer st
  = readLoop (map Chunk chunks) d buffer st.
Proof.
  induction chunks as [| c chunks IH]; intros d buffer st Hbuf Hfrag.
  - cbn [map app]. simpl List.concat in Hfrag.
    change (fst (decode d [])) with d in Hfrag.
    rewrite (readLoop_chunk value [] d buffer st []
               (buffer ++ snd (decode d value))%string);
      [reflexivity | reflexivity | constructor |].
    now rewrite noNewline_append, Hbuf, Hfrag.
  - simpl List.concat in Hfrag. rewrite decode_app in Hfrag. cbn [fst] in Hfrag.
    destruct (unlines_decomposition (buffer ++ snd (decode d c))%string)
      as (lines & frag & Htext & Hlines & Hfrag').
    cbn [map app].
    rewrite !(readLoop_chunk c _ d buffer st lines frag Htext Hlines Hfrag').
    destruct (processLines st lines); [| reflexivity].
    now rewrite IH.
Qed.
End ConsumerFacts.

(** C4. Feeding a byte stream [S] as the two chunks [S[0..i)] and [S[i..]]
    gives the same events, with the same display indices, and the same
    final state as feeding it as one chunk, for every [S] and [i]. And
    across two chunks in a row: the text that follows the last line feed
    of the first ([f1]) is not run as a line; it is kept and put in front
    of the text of the second, so that the lines run are [l1] and then the
    lines [l2] of [f1 ++ text2]. *)
Theorem chunk_boundaries_do_not_matter :
  (forall JSON_parse Decoder newTextDecoder decodeByte
          (S : list Byte.byte) (i : nat),
     startStreaming JSON_parse Decoder newTextDecoder decodeByte
       (okStream [firstn i S; skipn i S])
     = startStreaming JSON_parse Decoder newTextDecoder decodeByte
         (okStream [S]))
  /\
  (forall JSON_parse Decoder decodeByte v1 v2 rest d buffer st l1 f1 l2 f2,
     let d1 := fst (decode Decoder decodeByte d v1) in
     let d2 := fst (decode Decoder decodeByte d1 v2) in
     (buffer ++ snd (decode Decoder decodeByte d v1))%string
       = (unlines l1 ++ f1)%string ->
     (f1 ++ snd (decode Decoder decodeByte d1 v2))%string
       = (unlines l2 ++ f2)%string ->
     Forall (fun l => noNewline l = true) (l1 ++ l2) ->
     noNewline f1 = true ->
     noNewline f2 = true ->
     readLoop JSON_parse Decoder decodeByte
       (Chunk v1 :: Chunk v2 :: rest) d buffer st
     = match processLines JSON_parse st (l1 ++ l2) with
       | Normal st' events =>
           let (st'', events') :=
             readLoop JSON_parse Decoder decodeByte rest d2 f2 st' in
           (st'', events ++ events')
       | Return st' events => (st', events)
       end).
Proof.
  split.
  - intros JSON_parse Decoder newTextDecoder decodeByte S i.
    unfold startStreaming, okStream.
    cbn [Stream.resp_ok Stream.resp_body negb map].
    rewrite <- readLoop_split. now rewrite firstn_skipn.
  - intros JSON_parse Decoder decodeByte v1 v2 rest d buffer st l1 f1 l2 f2
           d1 d2 H1 H2 Hlines Hf1 Hf2.
    apply Forall_app in Hlines as [Hl1 Hl2].
    rewrite (readLoop_chunk _ _ _ v1 _ d buffer st l1 f1 H1 Hl1 Hf1).
    rewrite processLines_app.
    destruct (processLines JSON_parse st l1) as [st1 ev1 | st1 ev1];
      [| reflexivity].
    fold d1.
    rewrite (readLoop_chunk _ _ _ v2 rest d1 f1 st1 l2 f2 H2 Hl2 Hf2).
    fold d2.
    destruct (processLines JSON_parse st1 l2) as [st2 ev2 | st2 ev2];
      [| reflexivity].
    destruct (readLoop JSON_parse Decoder decodeByte rest d2 f2 st2)
      as [st3 ev3].
    now rewrite app_assoc.
Qed.

(** C9. When the stream ends, what the buffer holds is dropped: a last
    chunk whose text has no line feed changes neither the events nor the
    state, and so does the tail without line feed of a last chunk. A data
    line that ends the stream without its line feed is thus never parsed.
    (The decoder meets the last chunk in the state that the bytes of the
    earlier chunks leave it in.) *)
Theorem unterminated_last_line_is_dropped :
  (forall JSON_parse Decoder newTextDecoder decodeByte chunks value,
     noNewline
       (snd (decode Decoder decodeByte
               (fst (decode Decoder decodeByte newTextDecoder
                       (List.concat chunks))) value)) = true ->
     startStreaming JSON_parse Decoder newTextDecoder decodeByte
       (okStream (chunks ++ [value]))
     = startStreaming JSON_parse Decoder newTextDecoder decodeByte
         (okStream chunks))
  /\
  (forall JSON_parse Decoder newTextDecoder decodeByte chunks value tail,
     noNewline
       (snd (decode Decoder decodeByte
               (fst (decode Decoder decodeByte newTextDecoder
                       (List.concat (chunks ++ [value])))) tail)) = true ->
     startStreaming JSON_parse Decoder newTextDecoder decodeByte
       (okStream (chunks ++ [value ++ tail]))
     = startStreaming JSON_parse Decoder newTextDecoder decodeByte
         (okStream (chunks ++ [value]))).
Proof.
  assert (Hdrop :
    forall JSON_parse Decoder newTextDecoder decodeByte chunks value,
      noNewline
        (snd (decode Decoder decodeByte
                (fst (decode Decoder decodeByte newTextDecoder
                        (List.concat chunks))) value)) = true ->
      startStreaming JSON_parse Decoder newTextDecoder decodeByte
        (okStream (chunks ++ [value]))
      = startStreaming JSON_parse Decoder newTextDecoder decodeByte
          (okStream chunks)).
  { intros JSON_parse Decoder newTextDecoder decodeByte chunks value Hfrag.
    unfold startStreaming, okStream.
    cbn [Stream.resp_ok Stream.resp_body negb]. rewrite map_app. cbn [map].
    now apply readLoop_drop_fragment. }
  split; [exact Hdrop |].
  intros JSON_parse Decoder newTextDecoder decodeByte chunks value tail Hfrag.
  rewrite <- (Hdrop JSON_parse Decoder newTextDecoder decodeByte
                (chunks ++ [value]) tail Hfrag).
  unfold startStreaming, okStream.
  cbn [Stream.resp_ok Stream.resp_body negb].
  rewrite <- app_assoc, !map_app. cbn [map app].
  apply readLoop_congruence. intros d buffer st. apply readLoop_split.
Qed.

(** C10. The prefix is the six characters of ["data: "]: a line
    ["data:<payload>"] whose payload does not start with a space is
    dropped, without event and without change of state, whatever
    [JSON.parse] makes of the payload. *)
Theorem data_prefix_needs_its_space :
  forall JSON_parse st payload,
    startsWith " " payload = false ->
    processLine JSON_parse st ("data:" ++ payload)%string = Normal st [].
Proof.
  intros JSON_parse st payload Hspace.
  apply processLine_other.
  change (startsWith "data: " ("data:" ++ payload)%string)
    with (startsWith " " payload).
  exact Hspace.
Qed.

(** C7. For a complete line: one that does not start with ["data: "]
    gives no event and leaves the state as it is; so does a prefixed line
    whose remainder is empty or white space only; a prefixed line whose
    remainder [JSON.parse] rejects is reported as a parse error and the
    loop goes on: the lines after it give the events, and the routes, that
    they give without it. *)
Theorem lines_are_filtered_and_parse_errors_survived :
  (forall JSON_parse st line,
     startsWith "data: " line = false ->
     processLine JSON_parse st line = Normal st [])
  /\
  (forall JSON_parse st rest,
     whiteSpaceOnly rest = true ->
     processLine JSON_parse st ("data: " ++ rest)%string = Normal st [])
  /\
  (forall JSON_parse st rest lines,
     whiteSpaceOnly rest = false ->
     JSON_parse rest = None ->
     let malformed := ("data: " ++ rest)%string in
     processLine JSON_parse st malformed
       = Normal (setError ParseErrorMessage st) [ParseError rest]
     /\ eventsOf (processLines JSON_parse st (malformed :: lines))
        = ParseError rest :: eventsOf (processLines JSON_parse st lines)
     /\ returned (processLines JSON_parse st (malformed :: lines))
        = returned (processLines JSON_parse st lines)
     /\ routes (stateOf (processLines JSON_parse st (malformed :: lines)))
        = routes (stateOf (processLines JSON_parse st lines))).
Proof.
  split; [| split].
  - intros JSON_parse st line. apply processLine_other.
  - intros JSON_parse st rest Hws. now rewrite processLine_data, Hws.
  - intros JSON_parse st rest lines Hws Hparse malformed.
    assert (Hline : processLine JSON_parse st malformed
                    = Normal (setError ParseErrorMessage st) [ParseError rest]).
    { unfold malformed. rewrite processLine_data, Hws.
      unfold tryBody. now rewrite Hparse. }
    split; [exact Hline |].
    cbn [Stream.processLines]. rewrite Hline.
    destruct (processLines_same_routes JSON_parse lines
                (setError ParseErrorMessage st) st eq_refl)
      as (Hret & Hev & Hr).
    destruct (processLines JSON_parse (setError ParseErrorMessage st) lines);
      simpl in *; now rewrite <- Hev, <- Hret, <- Hr.
Qed.

(** The record that the consumer stores for a route with the given
    fields: [{...fields, allowanceTarget, id, displayIndex}]. *)
Lemma normalized_record fields allowanceTarget zid index :
  spread (VObj (obj_set "id" zid
                  (obj_set "allowanceTarget" allowanceTarget
                     (spread (VObj fields) [])))) []
  = obj_set "id" zid
      (obj_set "allowanceTarget" allowanceTarget (spread (VObj fields) []))
  /\ NoDup (keys (obj_set "displayIndex" index
                    (obj_set "id" zid
                       (obj_set "allowanceTarget" allowanceTarget
                          (spread (VObj fields) []))))).
Proof.
  assert (H : NoDup (keys (obj_set "id" zid
                             (obj_set "allowanceTarget" allowanceTarget
                                (spread (VObj fields) [])))))
    by (do 2 apply obj_set_NoDup; apply spread_NoDup).
  split; [now apply spread_object | now apply obj_set_NoDup].
Qed.

(** C6. A route event with the nested payload
    [{route: {...fields}, allowanceTarget}] and one with the flat payload
    [{...fields, allowanceTarget}] (flat: no truthy [route] among the
    fields), with the same correlation id and met in the same state, make
    the consumer store and report the same record: the fields, then
    [allowanceTarget], the correlation id as [id], and the display index. *)
Theorem nested_and_flat_routes_normalize_alike :
  forall JSON_parse st fields allowanceTarget zid nestedText flatText,
    JSON_parse nestedText
      = Some (streamEvent zid "route" (nestedRoute fields allowanceTarget)) ->
    JSON_parse flatText
      = Some (streamEvent zid "route" (flatRoute fields allowanceTarget)) ->
    whiteSpaceOnly nestedText = false ->
    whiteSpaceOnly flatText = false ->
    match obj_get "route" (fields ++ [("allowanceTarget", allowanceTarget)]) with
    | Some v => truthy v = false
    | None => True
    end ->
    let record :=
      VObj (obj_set "displayIndex"
              (VNum (Z.of_nat (List.length (routes st)) + 1))
              (obj_set "id" zid
                 (obj_set "allowanceTarget" allowanceTarget
                    (spread (VObj fields) [])))) in
    let st' :=
      {| routes := routes st ++ [record]; isStreaming := isStreaming st;
         isComplete := isComplete st; error := error st;
         liquidityAvailable := liquidityAvailable st |} in
    processLine JSON_parse st ("data: " ++ nestedText)%string
      = Normal st' [RouteFound record]
    /\ processLine JSON_parse st ("data: " ++ flatText)%string
       = Normal st' [RouteFound record].
Proof.
  intros JSON_parse st fields allowanceTarget zid nestedText flatText
         Hnested Hflat Hws1 Hws2 Hroute record st'.
  destruct (normalized_record fields allowanceTarget zid
              (VNum (Z.of_nat (List.length (routes st)) + 1))) as [Hcopy _].
  split.
  - rewrite processLine_data, Hws1. unfold tryBody. rewrite Hnested.
    unfold streamEvent, nestedRoute. cbn -[obj_set spread].
    unfold appendRoute. rewrite Hcopy. reflexivity.
  - rewrite processLine_data, Hws2. unfold tryBody. rewrite Hflat.
    unfold streamEvent, flatRoute. cbn -[obj_set spread].
    assert (Hspread :
      spread (VObj (fields ++ [("allowanceTarget", allowanceTarget)])) []
      = obj_set "allowanceTarget" allowanceTarget (spread (VObj fields) [])).
    { unfold spread. simpl own_props. now rewrite fold_left_app. }
    destruct (obj_get "route" (fields ++ [("allowanceTarget", allowanceTarget)]))
      as [v |]; cbn -[obj_set spread]; rewrite ?Hroute;
      cbn -[obj_set spread]; unfold appendRoute;
      rewrite Hspread, Hcopy; reflexivity.
Qed.

(** A data line whose body has an [error] with a readable [message]
    that converts to a string. *)
Lemma processLine_fatal JSON_parse st body props fatal message text :
  whiteSpaceOnly body = false ->
  JSON_parse body = Some (VObj props) ->
  obj_get "error" props = Some fatal ->
  get fatal "message" = Ok message ->
  ToString message = Ok text ->
  processLine JSON_parse st ("data: " ++ body)%string
  = Return (setIsComplete true
              (setIsStreaming false
                 (setError (FatalErrorMessage text) st)))
           [FatalError text].
Proof.
  intros Hws Hparse Herror Hmessage Htext.
  rewrite processLine_data, Hws. unfold tryBody. rewrite Hparse.
  cbn [bind js_in get]. rewrite Herror. cbn [bind]. rewrite Hmessage.
  cbn [bind]. now rewrite Htext.
Qed.

(** The same line when the [message] does not convert: the exception is
    caught as a parse error and the loop goes on. *)
Lemma processLine_unprintable JSON_parse st body props fatal message e :
  whiteSpaceOnly body = false ->
  JSON_parse body = Some (VObj props) ->
  obj_get "error" props = Some fatal ->
  get fatal "message" = Ok message ->
  ToString message = Throw e ->
  processLine JSON_parse st ("data: " ++ body)%string
  = Normal (setError ParseErrorMessage st) [ParseError body].
Proof.
  intros Hws Hparse Herror Hmessage Htext.
  rewrite processLine_data, Hws. unfold tryBody. rewrite Hparse.
  cbn [bind js_in get]. rewrite Herror. cbn [bind]. rewrite Hmessage.
  cbn [bind]. now rewrite Htext.
Qed.

(** A data line whose body is a result event with a readable payload. *)
Lemma processLine_result JSON_parse st body data inner event payload available :
  whiteSpaceOnly body = false ->
  JSON_parse body = Some data ->
  js_in "error" data = Ok false ->
  get data "data" = Ok inner ->
  get inner "event" = Ok event ->
  get event "type" = Ok (VStr "result") ->
  get event "data" = Ok payload ->
  get payload "liquidityAvailable" = Ok available ->
  processLine JSON_parse st ("data: " ++ body)%string
  = Return (setIsComplete true
              (setIsStreaming false
                 (setLiquidityAvailable available st)))
           [StreamResult available].
Proof.
  intros Hws Hparse Hin Hdata Hevent Htype Hpayload Havailable.
  rewrite processLine_data, Hws. unfold tryBody. rewrite Hparse.
  cbn [bind]. rewrite Hin. cbn [bind]. rewrite Hdata. cbn [bind].
  rewrite Hevent. cbn [bind]. rewrite Htype. cbn [bind is_string].
  change (String.eqb "result" "route") with false.
  change (String.eqb "result" "result") with true. cbn iota.
  rewrite Hpayload. cbn [bind]. now rewrite Havailable.
Qed.

(** Once a line returns, neither the lines after it nor the chunks after
    its chunk count. *)
Lemma readLoop_returns JSON_parse Decoder decodeByte
  value rest d buffer st before line after frag st1 events st2 events2 :
  (buffer ++ snd (decode Decoder decodeByte d value))%string
    = (unlines (before ++ line :: after) ++ frag)%string ->
  Forall (fun l => noNewline l = true) (before ++ line :: after) ->
  noNewline frag = true ->
  processLines JSON_parse st before = Normal st1 events ->
  processLine JSON_parse st1 line = Return st2 events2 ->
  readLoop JSON_parse Decoder decodeByte (Chunk value :: rest) d buffer st
  = (st2, events ++ events2).
Proof.
  intros Htext Hlines Hfrag Hbefore Hline.
  rewrite (readLoop_chunk _ _ _ value rest d buffer st _ frag Htext Hlines Hfrag).
  rewrite processLines_app, Hbefore. cbn [Stream.processLines].
  now rewrite Hline.
Qed.

(** C5, amended. The events of a stream hold at most one terminal event
    ([StreamResult] or [FatalError]) and nothing after it. The first data
    line whose JSON body is an object with an [error] key whose value
    has a readable [message] (any value but [null]) that converts to a
    string in the template literal (any message but an object with a
    member [toString], or an array that holds one) gives exactly one
    [FatalError], with that string, and ends the sequence, whatever
    follows in the chunk and in the stream; likewise the first event of
    inner type ["result"] whose [data] can be read for
    [liquidityAvailable] (it is there and not [null]) gives exactly one
    [StreamResult] and ends the sequence. *)
Theorem terminal_event_ends_the_stream :
  (forall JSON_parse Decoder newTextDecoder decodeByte outcome before e after,
     snd (startStreaming JSON_parse Decoder newTextDecoder decodeByte outcome)
       = before ++ e :: after ->
     isTerminal e = true ->
     after = [])
  /\
  (forall JSON_parse Decoder decodeByte value rest d buffer st
          before body after frag st1 events props fatal message text,
     (buffer ++ snd (decode Decoder decodeByte d value))%string
       = (unlines (before ++ ("data: " ++ body)%string :: after) ++ frag)%string ->
     Forall (fun l => noNewline l = true)
            (before ++ ("data: " ++ body)%string :: after) ->
     noNewline frag = true ->
     processLines JSON_parse st before = Normal st1 events ->
     whiteSpaceOnly body = false ->
     JSON_parse body = Some (VObj props) ->
     obj_get "error" props = Some fatal ->
     get fatal "message" = Ok message ->
     ToString message = Ok text ->
     readLoop JSON_parse Decoder decodeByte (Chunk value :: rest) d buffer st
     = (setIsComplete true
          (setIsStreaming false (setError (FatalErrorMessage text) st1)),
        events ++ [FatalError text]))
  /\
  (forall JSON_parse Decoder decodeByte value rest d buffer st
          before body after frag st1 events data inner event payload available,
     (buffer ++ snd (decode Decoder decodeByte d value))%string
       = (unlines (before ++ ("data: " ++ body)%string :: after) ++ frag)%string ->
     Forall (fun l => noNewline l = true)
            (before ++ ("data: " ++ body)%string :: after) ->
     noNewline frag = true ->
     processLines JSON_parse st before = Normal st1 events ->
     whiteSpaceOnly body = false ->
     JSON_parse body = Some data ->
     js_in "error" data = Ok false ->
     get data "data" = Ok inner ->
     get inner "event" = Ok event ->
     get event "type" = Ok (VStr "result") ->
     get event "data" = Ok payload ->
     get payload "liquidityAvailable" = Ok available ->
     readLoop JSON_parse Decoder decodeByte (Chunk value :: rest) d buffer st
     = (setIsComplete true
          (setIsStreaming false (setLiquidityAvailable available st1)),
        events ++ [StreamResult available])).
Proof.
  split; [| split].
  - intros JSON_parse Decoder newTextDecoder decodeByte outcome before e after
           Hevents Hterminal.
    eapply wellEnded_nothing_after; [| exact Hevents | exact Hterminal].
    unfold startStreaming.
    destruct outcome as [err | response]; [now left |].
    destruct (negb (Stream.resp_ok response)); [now left |].
    destruct (resp_body response) as [reader |]; [| now left].
    apply readLoop_events.
  - intros JSON_parse Decoder decodeByte value rest d buffer st
           before body after frag st1 events props fatal message text
           Htext Hlines Hfrag Hbefore Hws Hparse Herror Hmessage Hconv.
    eapply readLoop_returns; try eassumption.
    eapply processLine_fatal; eassumption.
  - intros JSON_parse Decoder decodeByte value rest d buffer st
           before body after frag st1 events data inner event payload available
           Htext Hlines Hfrag Hbefore Hws Hparse Hin Hdata Hevent Htype
           Hpayload Havailable.
    eapply readLoop_returns; try eassumption.
    eapply processLine_result; eassumption.
Qed.

(** *** The theorems at sample inputs *)

(** Two routes, then the result: indices 1 and 2, then the end. *)
Example two_routes_then_result :
  Samples.run [Samples.dataLine Samples.nestedRouteText;
               (Samples.dataLine Samples.flatRouteText
                ++ Samples.dataLine Samples.resultText)%string]
  = ({| routes := [Samples.routeRecord 1; Samples.routeRecord 2];
        isStreaming := false; isComplete := true; error := None;
        liquidityAvailable := Some (VBool true) |},
     [RouteFound (Samples.routeRecord 1); RouteFound (Samples.routeRecord 2);
      StreamResult (VBool true)]).
Proof. vm_compute. reflexivity. Qed.

Lemma chunk_boundaries_do_not_matter_witness :
  let route := ("data: " ++ Samples.flatRouteText)%string in
  let result := ("data: " ++ Samples.resultText)%string in
  let v1 := Samples.bytes (Samples.dataLine Samples.flatRouteText ++ "data: ") in
  let v2 := Samples.bytes (Samples.resultText ++ Samples.nl ++ "da") in
  snd (Samples.run [Samples.dataLine Samples.flatRouteText
                    ++ Samples.dataLine Samples.resultText ++ "da"]%string)
    = [RouteFound (Samples.routeRecord 1); StreamResult (VBool true)]
  /\ readLoop Samples.JSON_parse unit Samples.byteDecoder
       [Chunk v1; Chunk v2] tt ""%string started
     = match processLines Samples.JSON_parse started ([route] ++ [result]) with
       | Normal st' events =>
           let (st'', events') :=
             readLoop Samples.JSON_parse unit Samples.byteDecoder
               [] tt "da"%string st'
           in (st'', events ++ events')
       | Return st' events => (st', events)
       end.
Proof.
  intros route result v1 v2. split.
  - vm_compute. reflexivity.
  - apply (proj2 chunk_boundaries_do_not_matter
             Samples.JSON_parse unit Samples.byteDecoder
             v1 v2 [] tt ""%string started
             [route] "data: "%string [result] "da"%string).
    + vm_compute. reflexivity.
    + vm_compute. reflexivity.
    + repeat constructor.
    + reflexivity.
    + reflexivity.
Defined.

Lemma unterminated_last_line_is_dropped_witness :
  let unfinished := Samples.bytes ("data: " ++ Samples.resultText) in
  let route := Samples.bytes (Samples.dataLine Samples.flatRouteText) in
  startStreaming Samples.JSON_parse unit tt Samples.byteDecoder
    (okStream ([] ++ [unfinished]))
    = startStreaming Samples.JSON_parse unit tt Samples.byteDecoder
        (okStream [])
  /\ startStreaming Samples.JSON_parse unit tt Samples.byteDecoder
       (okStream ([] ++ [route ++ unfinished]))
     = startStreaming Samples.JSON_parse unit tt Samples.byteDecoder
         (okStream ([] ++ [route]))
  /\ Samples.run ["data: " ++ Samples.resultText]%string = (started, [])
  /\ snd (Samples.run [Samples.dataLine Samples.flatRouteText
                       ++ "data: " ++ Samples.resultText]%string)
     = [RouteFound (Samples.routeRecord 1)].
Proof.
  intros unfinished route. split; [| split; [| split]].
  - apply (proj1 unterminated_last_line_is_dropped
             Samples.JSON_parse unit tt Samples.byteDecoder [] unfinished).
    vm_compute. reflexivity.
  - apply (proj2 unterminated_last_line_is_dropped
             Samples.JSON_parse unit tt Samples.byteDecoder [] route unfinished).
    vm_compute. reflexivity.
  - vm_compute. reflexivity.
  - vm_compute. reflexivity.
Defined.

Lemma data_prefix_needs_its_space_witness :
  Samples.JSON_parse Samples.flatRouteText
    = Some (streamEvent (VStr "z1") "route"
              (flatRoute Samples.fields (VStr "0xdef")))
  /\ processLine Samples.JSON_parse started
       ("data:" ++ Samples.flatRouteText)%string
     = Normal started [].
Proof.
  split.
  - vm_compute. reflexivity.
  - apply (data_prefix_needs_its_space Samples.JSON_parse started
             Samples.flatRouteText).
    vm_compute. reflexivity.
Defined.

Lemma lines_are_filtered_and_parse_errors_survived_witness :
  let malformed := ("data: " ++ Samples.brokenText)%string in
  let route := ("data: " ++ Samples.flatRouteText)%string in
  processLine Samples.JSON_parse started ": keep-alive"%string
    = Normal started []
  /\ processLine Samples.JSON_parse started ("data: " ++ "  ")%string
     = Normal started []
  /\ processLine Samples.JSON_parse started malformed
     = Normal (setError ParseErrorMessage started)
              [ParseError Samples.brokenText]
  /\ eventsOf (processLines Samples.JSON_parse started [malformed; route])
     = ParseError Samples.brokenText
       :: eventsOf (processLines Samples.JSON_parse started [route])
  /\ eventsOf (processLines Samples.JSON_parse started [route])
     = [RouteFound (Samples.routeRecord 1)].
Proof.
  intros malformed route.
  destruct lines_are_filtered_and_parse_errors_survived
    as (Hother & Hblank & Hmalformed).
  split; [| split].
  - apply Hother. reflexivity.
  - apply Hblank. reflexivity.
  - destruct (Hmalformed Samples.JSON_parse started Samples.brokenText [route])
      as (Hline & Hevents & _).
    + vm_compute. reflexivity.
    + vm_compute. reflexivity.
    + split; [exact Hline |]. split; [exact Hevents |].
      vm_compute. reflexivity.
Defined.

Lemma nested_and_flat_routes_normalize_alike_witness :
  processLine Samples.JSON_parse started
    ("data: " ++ Samples.nestedRouteText)%string
    = Normal Samples.oneRoute [RouteFound (Samples.routeRecord 1)]
  /\ processLine Samples.JSON_parse started
       ("data: " ++ Samples.flatRouteText)%string
     = Normal Samples.oneRoute [RouteFound (Samples.routeRecord 1)].
Proof.
  apply (nested_and_flat_routes_normalize_alike
           Samples.JSON_parse started Samples.fields (VStr "0xdef") (VStr "z1")
           Samples.nestedRouteText Samples.flatRouteText).
  - vm_compute. reflexivity.
  - vm_compute. reflexivity.
  - vm_compute. reflexivity.
  - vm_compute. reflexivity.
  - exact I.
Defined.

Lemma terminal_event_ends_the_stream_witness :
  let route := ("data: " ++ Samples.flatRouteText)%string in
  let chunk body :=
    Chunk (Samples.bytes (Samples.dataLine Samples.flatRouteText
                          ++ Samples.dataLine body
                          ++ Samples.dataLine Samples.flatRouteText ++ "data")) in
  let later := [Chunk (Samples.bytes (Samples.dataLine Samples.resultText))] in
  skipn 2 (snd (Samples.run [Samples.dataLine Samples.flatRouteText
                             ++ Samples.dataLine Samples.resultText
                             ++ Samples.dataLine Samples.flatRouteText]%string))
    = []
  /\ readLoop Samples.JSON_parse unit Samples.byteDecoder
       (chunk Samples.fatalText :: later) tt ""%string started
     = (setIsComplete true
          (setIsStreaming false
             (setError (FatalErrorMessage "no routes") Samples.oneRoute)),
        [RouteFound (Samples.routeRecord 1)] ++ [FatalError "no routes"])
  /\ readLoop Samples.JSON_parse unit Samples.byteDecoder
       (chunk Samples.resultText :: later) tt ""%string started
     = (setIsComplete true
          (setIsStreaming false
             (setLiquidityAvailable (VBool true) Samples.oneRoute)),
        [RouteFound (Samples.routeRecord 1)] ++ [StreamResult (VBool true)]).
Proof.
  intros route chunk later.
  destruct terminal_event_ends_the_stream as (Hlast & Hfatal & Hresult).
  split; [| split].
  - apply (Hlast Samples.JSON_parse unit tt Samples.byteDecoder
             (okStream [Samples.bytes
                          (Samples.dataLine Samples.flatRouteText
                           ++ Samples.dataLine Samples.resultText
                           ++ Samples.dataLine Samples.flatRouteText)])
             [RouteFound (Samples.routeRecord 1)] (StreamResult (VBool true))).
    + vm_compute. reflexivity.
    + reflexivity.
  - apply (Hfatal Samples.JSON_parse unit Samples.byteDecoder _ later tt
             ""%string started [route] Samples.fatalText [route] "data"%string
             Samples.oneRoute [RouteFound (Samples.routeRecord 1)]
             [("error", VObj [("message", VStr "no routes");
                              ("code", VStr "E1"); ("type", VStr "fatal")])]
             (VObj [("message", VStr "no routes");
                    ("code", VStr "E1"); ("type", VStr "fatal")])
             (VStr "no routes") "no routes"%string).
    + vm_compute. reflexivity.
    + repeat constructor.
    + reflexivity.
    + vm_compute. reflexivity.
    + vm_compute. reflexivity.
    + vm_compute. reflexivity.
    + reflexivity.
    + reflexivity.
    + reflexivity.
  - apply (Hresult Samples.JSON_parse unit Samples.byteDecoder _ later tt
             ""%string started [route] Samples.resultText [route] "data"%string
             Samples.oneRoute [RouteFound (Samples.routeRecord 1)]
             (streamEvent (VStr "z1") "result"
                (VObj [("liquidityAvailable", VBool true)]))
             (VObj [("zid", VStr "z1");
                    ("event", VObj [("type", VStr "result");
                                    ("data", VObj [("liquidityAvailable",
                                                    VBool true)])])])
             (VObj [("type", VStr "result");
                    ("data", VObj [("liquidityAvailable", VBool true)])])
             (VObj [("liquidityAvailable", VBool true)])
             (VBool true)).
    + vm_compute. reflexivity.
    + repeat constructor.
    + reflexivity.
    + vm_compute. reflexivity.
    + vm_compute. reflexivity.
    + vm_compute. reflexivity.
    + reflexivity.
    + reflexivity.
    + reflexivity.
    + reflexivity.
    + reflexivity.
    + reflexivity.
Defined.

(** C5 as the specification states it fails: a data line whose JSON body
    has the key [error] with the value [null] gives no [FatalError]; the
    read of [error.message] throws inside the [try], the line is reported
    as a parse error and the route of the next line is still emitted. The
    same holds for a result event whose [data] is [null], and for an
    error whose [message] is an object with a member [toString], which
    the template literal cannot convert. *)
Lemma null_error_or_result_does_not_end_the_stream :
  Samples.JSON_parse Samples.nullErrorText = Some (VObj [("error", VNull)])
  /\ snd (Samples.run [Samples.dataLine Samples.nullErrorText
                       ++ Samples.dataLine Samples.flatRouteText]%string)
     = [ParseError Samples.nullErrorText; RouteFound (Samples.routeRecord 1)]
  /\ Samples.JSON_parse Samples.nullResultText
     = Some (streamEvent (VStr "z1") "result" VNull)
  /\ snd (Samples.run [Samples.dataLine Samples.nullResultText
                       ++ Samples.dataLine Samples.flatRouteText]%string)
     = [ParseError Samples.nullResultText; RouteFound (Samples.routeRecord 1)]
  /\ Samples.JSON_parse Samples.unprintableErrorText
     = Some (VObj [("error",
                    VObj [("message", VObj [("toString", VNum 0)])])])
  /\ snd (Samples.run [Samples.dataLine Samples.unprintableErrorText
                       ++ Samples.dataLine Samples.flatRouteText]%string)
     = [ParseError Samples.unprintableErrorText;
        RouteFound (Samples.routeRecord 1)].
Proof. vm_compute. repeat split. Qed.

End StreamFacts.


(* ================================================================== *)
(** ** More on the transaction monitor: every run *)
(* ================================================================== *)

Module MonitorRuns.
Import JS Monitor MonitorFacts.

#[local] Arguments includes : simpl never.
Local Open Scope list_scope.

(** [getStatus] never produces the time-out error of the monitor. *)
Lemma attemptResult_not_timeout remote request i m :
  attemptResult remote request i <> inl (MonitoringTimedOut m).
Proof.
  unfold attemptResult, getStatus; simpl.
  destruct (remote request i) as [msg | r]; [discriminate |].
  destruct (negb (Monitor.resp_ok r)); [discriminate |].
  destruct (resp_json r) as [data |]; [| discriminate].
  destruct (CrossChainStatusResponseSchema_parse data); discriminate.
Qed.

Section Runs.
Variable remote : Remote.
Variable request : CrossChainStatusRequest.
Variables (N ms : Z) (upd : bool).

Local Abbreviation loop := (monitorLoop remote request N ms upd).
Local Abbreviation result := (attemptResult remote request).

(** How a run of the loop can end, when the counter is the number of
    calls made and all calls so far were pending. *)
Lemma loop_classified fuel : forall attempt w w' out,
  attempt = Z.of_nat (calls w) ->
  (forall i, (i < calls w)%nat -> pending (result i) = true) ->
  loop fuel attempt w = Some (w', out) ->
  match out with
  | Returned s =>
      (calls w < calls w')%nat
      /\ Z.of_nat (calls w') <= N
      /\ result (calls w' - 1) = inr s
      /\ isFinal s = true
      /\ (forall i, (i < calls w' - 1)%nat -> pending (result i) = true)
  | Threw e =>
      (e = MonitoringTimedOut N
       /\ N <= Z.of_nat (calls w')
       /\ (calls w <= calls w')%nat
       /\ (calls w' = calls w \/ Z.of_nat (calls w') = N)
       /\ (forall i, (i < calls w')%nat -> pending (result i) = true)
       /\ ((calls w < calls w')%nat ->
           exists s, result (calls w' - 1) = inr s /\ isFinal s = false))
      \/
      ((calls w < calls w')%nat
       /\ Z.of_nat (calls w') = N
       /\ result (calls w' - 1) = inl e
       /\ (forall i, (i < calls w' - 1)%nat -> pending (result i) = true))
  end.
Proof.
  induction fuel as [| fuel IH]; intros attempt w w' out Hattempt Hbefore;
    simpl.
  - destruct (attempt <? N) eqn:Hg; [discriminate |].
    intros [= <- <-]. left. apply Z.ltb_ge in Hg.
    repeat split; [lia | lia | now left | exact Hbefore | lia].
  - destruct (attempt <? N) eqn:Hg.
    2:{ intros [= <- <-]. left. apply Z.ltb_ge in Hg.
        repeat split; [lia | lia | now left | exact Hbefore | lia]. }
    apply Z.ltb_lt in Hg.
    rewrite getStatus_attemptResult.
    destruct (result (calls w)) as [e | s] eqn:Hres.
    + destruct (attempt =? N - 1) eqn:Hlast.
      * intros [= <- <-]. right. apply Z.eqb_eq in Hlast. cbn [calls emit].
        replace (S (calls w) - 1)%nat with (calls w) by lia.
        repeat split; [lia | lia | exact Hres | exact Hbefore].
      * apply Z.eqb_neq in Hlast. intros Hrun.
        apply IH in Hrun; cbn [calls emit] in *.
        -- destruct out as [s | e'].
           ++ destruct Hrun as (Hlt & Hrest). split; [lia | exact Hrest].
           ++ destruct Hrun as [(He & HN & Hle & Hc & Hp & Hs) | (Hlt & Hrest)].
              ** left. destruct Hc as [Hc | Hc]; [lia |].
                 repeat split;
                   [exact He | exact HN | lia | now right | exact Hp |].
                 intros _. apply Hs. lia.
              ** right. split; [lia | exact Hrest].
        -- lia.
        -- intros i Hi. destruct (Nat.eq_dec i (calls w)) as [-> | Hne].
           ++ now rewrite Hres.
           ++ apply Hbefore. lia.
    + set (w1 := {| calls := S (calls w); log := log w ++ [Fetch request] |}).
      set (w2 := if upd then emit (OnUpdate s) w1 else w1).
      assert (Hc2 : calls w2 = S (calls w)) by (unfold w2; now destruct upd).
      destruct (includes finalStates (status s)) eqn:Hfin.
      * intros [= <- <-]. rewrite Hc2.
        replace (S (calls w) - 1)%nat with (calls w) by lia.
        repeat split; [lia | lia | exact Hres | exact Hfin | exact Hbefore].
      * set (w3 := if attempt <? N - 1 then emit (Sleep ms) w2 else w2).
        assert (Hc3 : calls w3 = S (calls w))
          by (unfold w3; now destruct (attempt <? N - 1)).
        assert (Hpend : pending (result (calls w)) = true)
          by (rewrite Hres; unfold pending, isFinal; now rewrite Hfin).
        intros Hrun. apply IH in Hrun; rewrite ?Hc3 in *.
        -- destruct out as [s' | e'].
           ++ destruct Hrun as (Hlt & Hrest). split; [lia | exact Hrest].
           ++ destruct Hrun
                as [(He & HN & Hle & Hcalls & Hp & Hs) | (Hlt & Hrest)].
              ** left. repeat split; [exact He | exact HN | lia | | exact Hp |].
                 --- right. destruct Hcalls as [Hcalls | Hcalls]; [lia | exact Hcalls].
                 --- intros _.
                     destruct (Nat.eq_dec (calls w') (S (calls w))) as [Heq | Hne].
                     +++ rewrite Heq.
                         replace (S (calls w) - 1)%nat with (calls w) by lia.
                         exists s. split; [exact Hres | exact Hfin].
                     +++ apply Hs. lia.
              ** right. split; [lia | exact Hrest].
        -- lia.
        -- intros i Hi. destruct (Nat.eq_dec i (calls w)) as [-> | Hne].
           ++ exact Hpend.
           ++ apply Hbefore. lia.
Qed.

(** The fetches and delays that a run adds alternate, fetch first and
    fetch last. *)
Lemma loop_paced fuel : forall attempt w w' out,
  loop fuel attempt w = Some (w', out) ->
  exists n,
    schedule (log w') = schedule (log w) ++ polls request ms n
    /\ (attempt < N -> (1 <= n)%nat)
    /\ (N <= attempt -> n = 0%nat).
Proof.
  induction fuel as [| fuel IH]; intros attempt w w' out; simpl.
  - destruct (attempt <? N) eqn:Hg; [discriminate |].
    intros [= <- _]. exists 0%nat. apply Z.ltb_ge in Hg.
    split; [now rewrite app_nil_r | split; [lia | reflexivity]].
  - destruct (attempt <? N) eqn:Hg.
    2:{ intros [= <- _]. exists 0%nat. apply Z.ltb_ge in Hg.
        split; [now rewrite app_nil_r | split; [lia | reflexivity]]. }
    apply Z.ltb_lt in Hg.
    rewrite getStatus_attemptResult.
    destruct (result (calls w)) as [e | s].
    + destruct (attempt =? N - 1) eqn:Hlast.
      * intros [= <- _]. exists 1%nat. norm_log.
        rewrite !schedule_app. simpl. split; [reflexivity | lia].
      * apply Z.eqb_neq in Hlast. intros Hrun.
        apply IH in Hrun. destruct Hrun as (n & Hs & Hn & _).
        destruct n as [| n]; [lia |].
        exists (S (S n)). split; [| lia].
        rewrite Hs. norm_log. rewrite !schedule_app. simpl.
        rewrite <- app_assoc. reflexivity.
    + destruct (includes finalStates (status s)).
      * intros [= <- _]. exists 1%nat.
        destruct upd; norm_log; rewrite !schedule_app; simpl;
          (split; [reflexivity | lia]).
      * intros Hrun. apply IH in Hrun. destruct Hrun as (n & Hs & Hn & Hz).
        destruct (attempt <? N - 1) eqn:Hg1.
        -- apply Z.ltb_lt in Hg1. destruct n as [| n]; [lia |].
           exists (S (S n)). split; [| lia]. rewrite Hs.
           destruct upd; norm_log; rewrite !schedule_app; simpl;
             rewrite <- app_assoc; reflexivity.
        -- apply Z.ltb_ge in Hg1. rewrite Hz in Hs by lia.
           exists 1%nat. split; [| lia]. rewrite Hs.
           destruct upd; norm_log; rewrite !schedule_app; simpl;
             rewrite <- ?app_assoc; reflexivity.
Qed.
End Runs.

Lemma fetchedStatuses_last remote request n s :
  attemptResult remote request n = inr s ->
  fetchedStatuses remote request 0 (S n)
  = fetchedStatuses remote request 0 n ++ [s].
Proof.
  intros Hres. unfold fetchedStatuses.
  rewrite seq_S, flat_map_app. simpl. now rewrite Hres.
Qed.

(** What a run of [monitorTransaction] is, in terms of the loop. *)
Lemma monitorTransaction_run remote request options w out :
  monitorTransaction remote request options = Some (w, out) ->
  calls w = fetches (log w)
  /\ schedule (log w)
     = polls request (delay options) (fetches (log w))
  /\ match out with
     | Returned s =>
         (1 <= calls w)%nat
         /\ Z.of_nat (calls w) <= attemptBudget options
         /\ attemptResult remote request (calls w - 1) = inr s
         /\ isFinal s = true
         /\ (forall i, (i < calls w - 1)%nat ->
               pending (attemptResult remote request i) = true)
     | Threw e =>
         (e = MonitoringTimedOut (attemptBudget options)
          /\ calls w = Z.to_nat (attemptBudget options)
          /\ (forall i, (i < calls w)%nat ->
                pending (attemptResult remote request i) = true)
          /\ ((1 <= calls w)%nat ->
              exists s, attemptResult remote request (calls w - 1) = inr s
                        /\ isFinal s = false))
         \/
         ((1 <= calls w)%nat
          /\ Z.of_nat (calls w) = attemptBudget options
          /\ attemptResult remote request (calls w - 1) = inl e
          /\ (forall i, (i < calls w - 1)%nat ->
                pending (attemptResult remote request i) = true))
     end.
Proof.
  unfold monitorTransaction. intros Hrun.
  pose proof (loop_updates _ _ _ _ _ _ _ _ _ _ Hrun) as (n & Hc & Hf & _).
  pose proof (loop_paced _ _ _ _ _ _ _ _ _ _ Hrun) as (k & Hs & _ & _).
  assert (H0 : forall i, (i < calls world0)%nat ->
                 pending (attemptResult remote request i) = true)
    by (intros i Hi; cbn in Hi; lia).
  pose proof (loop_classified _ _ _ _ _ _ _ world0 _ _ eq_refl H0 Hrun)
    as Hclass.
  cbn [world0 calls log] in *. change (fetches []) with 0%nat in Hf.
  simpl in Hc, Hf, Hs.
  assert (Hcalls : calls w = fetches (log w)) by lia.
  split; [exact Hcalls |]. split.
  - assert (Hk : fetches (log w) = k)
      by (rewrite <- fetches_schedule, Hs; apply fetches_polls).
    rewrite Hk. exact Hs.
  - destruct out as [s | e].
    + destruct Hclass as (Hlt & Hle & Hres & Hfin & Hp).
      repeat split; [lia | exact Hle | exact Hres | exact Hfin | exact Hp].
    + destruct Hclass as [(He & HN & Hle & Hcs & Hp & Hlast) | (Hlt & Hrest)].
      * left. repeat split; [exact He | | exact Hp |].
        -- destruct Hcs as [Hcs | Hcs]; lia.
        -- intros H1. apply Hlast. lia.
      * right. split; [lia | exact Hrest].
Qed.






(** X6. When a callback is passed, the last status it receives before
    [monitorTransaction] returns is the returned one; before it, it got
    the statuses of the earlier successful fetches. *)
Theorem monitor_callback_sees_the_returned_status_last :
  forall remote request options w s,
    onUpdate options = true ->
    monitorTransaction remote request options = Some (w, Returned s) ->
    updates (log w)
    = fetchedStatuses remote request 0 (fetches (log w) - 1) ++ [s].
Proof.
  intros remote request options w s Hupd Hrun.
  destruct (monitorTransaction_run _ _ _ _ _ Hrun)
    as (Hc & _ & H1 & _ & Hres & _).
  unfold monitorTransaction in Hrun.
  pose proof (loop_updates _ _ _ _ _ _ _ _ _ _ Hrun) as (n & Hn & _ & Hu).
  cbn [world0 calls log] in Hn, Hu. rewrite Hupd in Hu. simpl in Hn, Hu.
  rewrite Hu, <- Hc, <- Hn.
  replace (calls w) with (S (calls w - 1)) at 1 by lia.
  now apply fetchedStatuses_last.
Qed.





Lemma monitor_callback_sees_the_returned_status_last_witness :
  exists w,
    monitorTransaction Samples.settlingRemote Samples.request (Samples.options 5)
      = Some (w, Returned (Samples.statusRecord "destination_tx_succeeded"))
    /\ updates (log w)
       = fetchedStatuses Samples.settlingRemote Samples.request 0
           (fetches (log w) - 1)
         ++ [Samples.statusRecord "destination_tx_succeeded"].
Proof.
  destruct (monitorTransaction Samples.settlingRemote Samples.request
              (Samples.options 5)) as [[w out] |] eqn:Hrun;
    [| discriminate Hrun].
  assert (Hout : out = Returned (Samples.statusRecord "destination_tx_succeeded")).
  { vm_compute in Hrun. injection Hrun as _ <-. reflexivity. }
  subst out. exists w. split; [reflexivity |].
  exact (monitor_callback_sees_the_returned_status_last
           Samples.settlingRemote Samples.request (Samples.options 5) w _
           eq_refl Hrun).
Defined.

End MonitorRuns.


(* ================================================================== *)
(** ** The schema of the status response (src/schemas.ts) *)
(* ================================================================== *)

Module SchemaFacts.
Import JS Monitor MonitorVocabulary MonitorFacts.

#[local] Arguments includes : simpl never.
Local Open Scope list_scope.

(** Case analysis on an innermost [match] of the goal. *)
Ltac break_match_goal :=
  match goal with
  | |- context [match ?x with _ => _ end] =>
      lazymatch x with
      | context [match _ with _ => _ end] => fail
      | _ => destruct x
      end
  end.

Lemma obj_get_skip k' k v before after :
  k' <> k ->
  obj_get k' (before ++ (k, v) :: after) = obj_get k' (before ++ after).
Proof.
  intros Hne. induction before as [| [k0 v0] before IH]; simpl.
  - apply String.eqb_neq in Hne. rewrite Hne.
    now destruct (obj_get k' after).
  - now rewrite IH.
Qed.

(** X7. The schema reads five members only: a member under any other
    name, wherever it stands in the response object, changes nothing of
    the outcome of the check. *)
Theorem status_schema_ignores_other_members :
  forall before after k v,
    ~ In k statusKeys ->
    CrossChainStatusResponseSchema_parse (VObj (before ++ (k, v) :: after))
    = CrossChainStatusResponseSchema_parse (VObj (before ++ after)).
Proof.
  intros before after k v Hk.
  unfold CrossChainStatusResponseSchema_parse.
  rewrite !obj_get_skip; [reflexivity | | | | |];
    intros <-; apply Hk; simpl; tauto.
Qed.

Lemma parse_all_Forall2 {A} (p : Value -> option A) items : forall out,
  parse_all p items = Some out ->
  Forall2 (fun item a => p item = Some a) items out.
Proof.
  induction items as [| item items IH]; intros out; simpl.
  - intros [= <-]. constructor.
  - destruct (p item) as [a |] eqn:Hp; [| discriminate].
    destruct (parse_all p items) as [rest |]; [| discriminate].
    intros [= <-]. constructor; [exact Hp | now apply IH].
Qed.

Lemma parse_enum_sound members v s :
  parse_enum members v = Some s -> v = VStr s /\ In s members.
Proof.
  unfold parse_enum. destruct v as [| | | | str | |]; try discriminate.
  destruct (includes members str) eqn:Hin; [| discriminate].
  intros [= <-]. split; [reflexivity | now apply includes_In].
Qed.

Lemma parse_string_sound v s : parse_string v = Some s -> v = VStr s.
Proof. destruct v; try discriminate. now intros [= <-]. Qed.

Lemma parse_optional_sound {A} (p : Value -> option A) v a :
  parse_optional p v = Some (Some a) -> exists x, v = Some x /\ p x = Some a.
Proof.
  unfold parse_optional. destruct v as [x |]; [| discriminate].
  destruct x; try discriminate;
    match goal with
    | |- context [p ?y] =>
        destruct (p y) eqn:Hp; [| discriminate];
        intros [= <-]; exists y; now split
    end.
Qed.

(** X8. What the schema lets through is a checked copy of the response:
    [status] and [zid] are the strings of the response, [status] among
    the 17 enumerated ones; [subStatus], when there is one, is the string
    of the response and one of the 6 enumerated ones; the transactions
    are those of the response, as many and in the same order, each with
    its four members. *)
Theorem status_schema_gives_a_checked_copy :
  forall data r,
    CrossChainStatusResponseSchema_parse data = Some r ->
    exists props items,
      data = VObj props
      /\ obj_get "status" props = Some (VStr (status r))
      /\ In (status r) statusEnum
      /\ (forall ss, subStatus r = Some ss ->
            obj_get "subStatus" props = Some (VStr ss) /\ In ss subStatusEnum)
      /\ (forall b, bridge r = Some b ->
            obj_get "bridge" props = Some (VStr b))
      /\ obj_get "zid" props = Some (VStr (zid r))
      /\ obj_get "transactions" props = Some (VArr items)
      /\ Forall2 (fun item tx =>
                    exists members,
                      item = VObj members
                      /\ obj_get "chainId" members = Some (VNum (chainId tx))
                      /\ obj_get "chain" members = Some (VStr (chain tx))
                      /\ obj_get "txHash" members = Some (VStr (txHash tx))
                      /\ obj_get "timestamp" members
                         = Some (VNum (timestamp tx)))
                 items (transactions r).
Proof.
  intros data r. unfold CrossChainStatusResponseSchema_parse.
  destruct data as [| | | | | | props]; try discriminate.
  destruct (obj_get "status" props) as [vs |] eqn:Hstatus; [| discriminate].
  cbn [parse_required].
  destruct (parse_enum statusEnum vs) as [s |] eqn:Hs; [| discriminate].
  apply parse_enum_sound in Hs as [-> Hs].
  destruct (parse_optional (parse_enum subStatusEnum) (obj_get "subStatus" props))
    as [ss |] eqn:Hss; [| discriminate].
  destruct (parse_optional parse_string (obj_get "bridge" props))
    as [b |] eqn:Hb; [| discriminate].
  destruct (obj_get "transactions" props) as [vt |] eqn:Htxs; [| discriminate].
  cbn [parse_required].
  destruct (parse_array parse_TransactionInfo vt) as [txs |] eqn:Hparse;
    [| discriminate].
  destruct (obj_get "zid" props) as [vz |] eqn:Hzid; [| discriminate].
  cbn [parse_required].
  destruct (parse_string vz) as [z |] eqn:Hz; [| discriminate].
  apply parse_string_sound in Hz as ->.
  intros [= <-]. cbn [status subStatus bridge zid transactions].
  destruct vt as [| | | | | items |]; try discriminate Hparse.
  exists props, items.
  split; [reflexivity |]. split; [exact Hstatus |]. split; [exact Hs |].
  split; [| split; [| split; [exact Hzid | split; [exact Htxs |]]]].
  - intros ss' ->. apply parse_optional_sound in Hss as (v & -> & Hv).
    apply parse_enum_sound in Hv as [-> Hin]. now split.
  - intros b' ->. apply parse_optional_sound in Hb as (v & -> & Hv).
    now apply parse_string_sound in Hv as ->.
  - simpl in Hparse. apply parse_all_Forall2 in Hparse.
    eapply Forall2_impl; [| exact Hparse].
    intros item tx. unfold parse_TransactionInfo.
    destruct item as [| | | | | | members]; try discriminate.
    destruct (obj_get "chainId" members) as [[| | | c | | |] |] eqn:Hc;
      try discriminate.
    destruct (obj_get "chain" members) as [[| | | | n | |] |] eqn:Hn;
      try discriminate.
    destruct (obj_get "txHash" members) as [[| | | | h | |] |] eqn:Hh;
      try discriminate.
    destruct (obj_get "timestamp" members) as [[| | | t | | |] |] eqn:Ht;
      try discriminate.
    simpl. intros [= <-]. exists members. now repeat split.
Qed.

(** X9. The schema turns down a response that lacks [status],
    [transactions] or [zid], one whose [subStatus] or [bridge] is [null],
    and one with a transaction entry that fails its own schema, even if
    all the other entries pass. *)
Theorem status_schema_rejects :
  (forall props k,
     In k requiredStatusKeys ->
     obj_get k props = None ->
     CrossChainStatusResponseSchema_parse (VObj props) = None)
  /\
  (forall props k,
     In k optionalStatusKeys ->
     obj_get k props = Some VNull ->
     CrossChainStatusResponseSchema_parse (VObj props) = None)
  /\
  (forall props items item,
     obj_get "transactions" props = Some (VArr items) ->
     In item items ->
     parse_TransactionInfo item = None ->
     CrossChainStatusResponseSchema_parse (VObj props) = None).
Proof.
  split; [| split].
  - intros props k Hk Hnone. unfold CrossChainStatusResponseSchema_parse.
    destruct Hk as [<- | [<- | [<- | []]]]; rewrite Hnone; cbn [parse_required];
      repeat (break_match_goal; try reflexivity); reflexivity.
  - intros props k Hk Hnull. unfold CrossChainStatusResponseSchema_parse.
    destruct Hk as [<- | [<- | []]]; rewrite Hnull;
      cbn [parse_optional parse_enum parse_string];
      repeat (break_match_goal; try reflexivity); reflexivity.
  - intros props items item Htxs Hin Hbad.
    unfold CrossChainStatusResponseSchema_parse. rewrite Htxs.
    cbn [parse_required parse_array].
    assert (Hall : parse_all parse_TransactionInfo items = None).
    { clear Htxs. induction items as [| x items IH]; [contradiction |].
      simpl. destruct Hin as [-> | Hin].
      - now rewrite Hbad.
      - rewrite (IH Hin). now destruct (parse_TransactionInfo x). }
    rewrite Hall. repeat (break_match_goal; try reflexivity); reflexivity.
Qed.

Lemma status_schema_ignores_other_members_witness :
  CrossChainStatusResponseSchema_parse
    (VObj ([("status", VStr "bridge_filled")]
           ++ ("requestId", VStr "r-1")
           :: [("transactions", VArr []); ("zid", VStr "0x1")]))
  = CrossChainStatusResponseSchema_parse
      (VObj ([("status", VStr "bridge_filled")]
             ++ [("transactions", VArr []); ("zid", VStr "0x1")])).
Proof.
  apply status_schema_ignores_other_members.
  unfold statusKeys. simpl. intros [H | [H | [H | [H | [H | []]]]]];
    discriminate H.
Defined.

Lemma status_schema_gives_a_checked_copy_witness :
  exists props items,
    Samples.statusBody "bridge_filled" = VObj props
    /\ obj_get "status" props = Some (VStr "bridge_filled")
    /\ In "bridge_filled" statusEnum
    /\ obj_get "transactions" props = Some (VArr items)
    /\ List.length items = 1%nat.
Proof.
  destruct (status_schema_gives_a_checked_copy
              (Samples.statusBody "bridge_filled")
              (Samples.statusRecord "bridge_filled") eq_refl)
    as (props & items & Hdata & Hstatus & Hin & _ & _ & _ & Htxs & Hall).
  exists props, items.
  split; [exact Hdata |]. split; [exact Hstatus |]. split; [exact Hin |].
  split; [exact Htxs |].
  apply Forall2_length in Hall. exact Hall.
Defined.

Lemma status_schema_rejects_witness :
  CrossChainStatusResponseSchema_parse
    (VObj [("status", VStr "bridge_filled"); ("transactions", VArr [])])
  = None
  /\ CrossChainStatusResponseSchema_parse
       (VObj [("status", VStr "bridge_filled"); ("subStatus", VNull);
              ("transactions", VArr []); ("zid", VStr "0x1")])
     = None
  /\ CrossChainStatusResponseSchema_parse
       (VObj [("status", VStr "bridge_filled");
              ("transactions",
               VArr [VObj [("chainId", VNum 8453); ("chain", VStr "base");
                           ("txHash", VStr "0xabc");
                           ("timestamp", VNum 1700000000)];
                     VObj [("chainId", VStr "8453"); ("chain", VStr "base");
                           ("txHash", VStr "0xdef");
                           ("timestamp", VNum 1700000001)]]);
              ("zid", VStr "0x1")])
     = None.
Proof.
  destruct status_schema_rejects as (Hmissing & Hnull & Hentry).
  split; [| split].
  - apply (Hmissing _ "zid"); [simpl; tauto | reflexivity].
  - apply (Hnull _ "subStatus"); [simpl; tauto | reflexivity].
  - eapply Hentry; [reflexivity | right; left; reflexivity | reflexivity].
Defined.

End SchemaFacts.


(* ================================================================== *)
(** ** More on the streaming component: state, view and cards *)
(* ================================================================== *)

Module StreamMore.
Import JS Stream StreamVocabulary StreamFacts.

Local Open Scope list_scope.

(** *** Reading a member that was just written *)

Lemma obj_get_fresh k props : ~ In k (keys props) -> obj_get k props = None.
Proof.
  induction props as [| [k' v'] props IH]; intros Hfresh; [reflexivity |].
  simpl in *. rewrite IH by tauto.
  destruct (String.eqb k k') eqn:E; [| reflexivity].
  apply String.eqb_eq in E. subst. tauto.
Qed.

Lemma obj_get_obj_set_same k v props :
  NoDup (keys props) -> obj_get k (obj_set k v props) = Some v.
Proof.
  induction props as [| [k' v'] props IH]; intros Hnd; simpl.
  - now rewrite String.eqb_refl.
  - inversion Hnd as [| ? ? Hk Hrest]; subst.
    destruct (String.eqb k k') eqn:E.
    + apply String.eqb_eq in E. subst k'. simpl.
      rewrite obj_get_fresh by assumption. now rewrite String.eqb_refl.
    + simpl. now rewrite IH.
Qed.

Lemma obj_get_obj_set_other k k' v props :
  k' <> k -> obj_get k' (obj_set k v props) = obj_get k' props.
Proof.
  intros Hne. induction props as [| [k0 v0] props IH]; simpl.
  - apply String.eqb_neq in Hne. now rewrite Hne.
  - destruct (String.eqb k k0) eqn:E; simpl.
    + apply String.eqb_eq in E. subst k0.
      apply String.eqb_neq in Hne. rewrite Hne. reflexivity.
    + now rewrite IH.
Qed.

(** *** The state follows the events *)

Lemma replay_app st l1 l2 : replay st (l1 ++ l2) = replay (replay st l1) l2.
Proof. apply fold_left_app. Qed.

Section Mirror.
Variable JSON_parse : string -> option Value.
Variable Decoder : Type.
Variable newTextDecoder : Decoder.
Variable decodeByte : Decoder -> Byte.byte -> Decoder * string.

Local Abbreviation tryBody := (Stream.tryBody JSON_parse).
Local Abbreviation processLine := (Stream.processLine JSON_parse).
Local Abbreviation processLines := (Stream.processLines JSON_parse).
Local Abbreviation readLoop :=
  (Stream.readLoop JSON_parse Decoder decodeByte).
Local Abbreviation startStreaming :=
  (Stream.startStreaming JSON_parse Decoder newTextDecoder decodeByte).

Lemma tryBody_replay st eventData :
  match tryBody st eventData with
  | Ok c => stateOf c = replay st (eventsOf c)
  | Throw _ => True
  end.
Proof.
  unfold Stream.tryBody, bind, appendRoute.
  repeat (break_match; simpl; auto).
Qed.

Lemma processLine_replay st line :
  stateOf (processLine st line) = replay st (eventsOf (processLine st line)).
Proof.
  unfold Stream.processLine.
  destruct (startsWith "data: " line); [| reflexivity].
  destruct (String.eqb (trim (slice 6 line)) ""); [reflexivity |].
  pose proof (tryBody_replay st (slice 6 line)) as H.
  destruct (tryBody st (slice 6 line)) as [c | e]; [exact H | reflexivity].
Qed.

Lemma processLines_replay lines : forall st,
  stateOf (processLines st lines) = replay st (eventsOf (processLines st lines)).
Proof.
  induction lines as [| line lines IH]; intros st; simpl; [reflexivity |].
  pose proof (processLine_replay st line) as H1.
  destruct (processLine st line) as [st1 ev1 | st1 ev1]; simpl in H1.
  - specialize (IH st1).
    destruct (processLines st1 lines) as [st2 ev2 | st2 ev2]; simpl in *;
      now rewrite replay_app, <- H1.
  - exact H1.
Qed.

(** While only chunks arrive, the loop leaves the state that the events
    make. *)
Lemma readLoop_replay chunks : forall d buffer st,
  fst (readLoop (map Chunk chunks) d buffer st)
  = replay st (snd (readLoop (map Chunk chunks) d buffer st)).
Proof.
  induction chunks as [| c chunks IH]; intros d buffer st;
    cbn [map Stream.readLoop]; [reflexivity |].
  destruct (Stream.decode Decoder decodeByte d c) as [d' text].
  destruct (pop (split_newline (buffer ++ text))) as [popped lines].
  pose proof (processLines_replay lines st) as H.
  destruct (processLines st lines) as [st1 ev1 | st1 ev1]; simpl in H.
  - specialize (IH d' (or_empty popped) st1).
    destruct (Stream.readLoop _ _ _ (map Chunk chunks) d' (or_empty popped) st1)
      as [st2 ev2].
    simpl in *. now rewrite replay_app, <- H.
  - exact H.
Qed.

(** *** Routes and their display indices *)

Lemma wellIndexed_snoc rs props :
  wellIndexed rs ->
  wellIndexed
    (rs ++ [VObj (obj_set "displayIndex" (VNum (Z.of_nat (List.length rs) + 1))
                    (spread (VObj props) []))]).
Proof.
  intros Hrs i r Hnth.
  destruct (Nat.lt_ge_cases i (List.length rs)) as [Hlt | Hge].
  - rewrite nth_error_app1 in Hnth by assumption. now apply Hrs.
  - rewrite nth_error_app2 in Hnth by assumption.
    destruct (i - List.length rs)%nat as [| j] eqn:Hj.
    + simpl in Hnth. injection Hnth as <-. simpl.
      rewrite obj_get_obj_set_same by apply spread_NoDup.
      do 3 f_equal. lia.
    + simpl in Hnth. now destruct j.
Qed.

Lemma tryBody_routes st eventData :
  match tryBody st eventData with
  | Ok c =>
      routes (stateOf c) = routes st ++ foundRoutes (eventsOf c)
      /\ (wellIndexed (routes st) -> wellIndexed (routes (stateOf c)))
      /\ (isStreaming st = negb (isComplete st) ->
          isStreaming (stateOf c) = negb (isComplete (stateOf c)))
  | Throw _ => True
  end.
Proof.
  unfold Stream.tryBody, bind, appendRoute.
  repeat (break_match; simpl; auto);
    rewrite ?app_nil_r; repeat split; auto using wellIndexed_snoc.
Qed.

Lemma processLine_routes st line :
  routes (stateOf (processLine st line))
  = routes st ++ foundRoutes (eventsOf (processLine st line))
  /\ (wellIndexed (routes st) ->
      wellIndexed (routes (stateOf (processLine st line))))
  /\ (isStreaming st = negb (isComplete st) ->
      isStreaming (stateOf (processLine st line))
      = negb (isComplete (stateOf (processLine st line)))).
Proof.
  unfold Stream.processLine.
  destruct (startsWith "data: " line);
    [| simpl; rewrite app_nil_r; now repeat split].
  destruct (String.eqb (trim (slice 6 line)) "");
    [simpl; rewrite app_nil_r; now repeat split |].
  pose proof (tryBody_routes st (slice 6 line)) as H.
  destruct (tryBody st (slice 6 line)) as [c | e]; [exact H |].
  simpl. rewrite app_nil_r. now repeat split.
Qed.

Lemma foundRoutes_app l1 l2 :
  foundRoutes (l1 ++ l2) = foundRoutes l1 ++ foundRoutes l2.
Proof. apply flat_map_app. Qed.

Lemma processLines_routes lines : forall st,
  routes (stateOf (processLines st lines))
  = routes st ++ foundRoutes (eventsOf (processLines st lines))
  /\ (wellIndexed (routes st) ->
      wellIndexed (routes (stateOf (processLines st lines))))
  /\ (isStreaming st = negb (isComplete st) ->
      isStreaming (stateOf (processLines st lines))
      = negb (isComplete (stateOf (processLines st lines)))).
Proof.
  induction lines as [| line lines IH]; intros st; simpl.
  - rewrite app_nil_r. now repeat split.
  - destruct (processLine_routes st line) as (Hr1 & Hi1 & Hf1).
    destruct (processLine st line) as [st1 ev1 | st1 ev1]; simpl in *;
      [| now repeat split].
    destruct (IH st1) as (Hr2 & Hi2 & Hf2).
    destruct (processLines st1 lines) as [st2 ev2 | st2 ev2]; simpl in *;
      rewrite foundRoutes_app, app_assoc, <- Hr1; repeat split; auto.
Qed.

Lemma connectionCatch_keeps err st :
  routes (connectionCatch err st) = routes st
  /\ (isStreaming st = negb (isComplete st) ->
      isStreaming (connectionCatch err st)
      = negb (isComplete (connectionCatch err st))).
Proof.
  destruct err as [name message |]; simpl; [| now split].
  destruct (String.eqb name "AbortError"); now split.
Qed.

Lemma readLoop_routes reader : forall d buffer st,
  routes (fst (readLoop reader d buffer st))
  = routes st ++ foundRoutes (snd (readLoop reader d buffer st))
  /\ (wellIndexed (routes st) ->
      wellIndexed (routes (fst (readLoop reader d buffer st))))
  /\ (isStreaming st = negb (isComplete st) ->
      isStreaming (fst (readLoop reader d buffer st))
      = negb (isComplete (fst (readLoop reader d buffer st)))).
Proof.
  induction reader as [| r reader IH]; intros d buffer st;
    cbn [Stream.readLoop].
  - simpl. rewrite app_nil_r. now repeat split.
  - destruct r as [value | err].
    + destruct (Stream.decode Decoder decodeByte d value) as [d' text].
      destruct (pop (split_newline (buffer ++ text))) as [popped lines].
      destruct (processLines_routes lines st) as (Hr1 & Hi1 & Hf1).
      destruct (processLines st lines) as [st1 ev1 | st1 ev1]; simpl in *;
        [| now repeat split].
      destruct (IH d' (or_empty popped) st1) as (Hr2 & Hi2 & Hf2).
      destruct (Stream.readLoop _ _ _ reader d' (or_empty popped) st1)
        as [st2 ev2].
      simpl in *. rewrite foundRoutes_app, app_assoc, <- Hr1.
      repeat split; auto.
    + destruct (connectionCatch_keeps err st) as [Hr Hf].
      simpl. rewrite app_nil_r, Hr.
      split; [reflexivity | split; [tauto | exact Hf]].
Qed.

Lemma startStreaming_routes outcome :
  routes (fst (startStreaming outcome))
  = foundRoutes (snd (startStreaming outcome))
  /\ wellIndexed (routes (fst (startStreaming outcome)))
  /\ isStreaming (fst (startStreaming outcome))
     = negb (isComplete (fst (startStreaming outcome))).
Proof.
  assert (Hnil : wellIndexed []) by (intros [| i] r H; discriminate H).
  unfold Stream.startStreaming.
  destruct outcome as [err | response].
  - destruct (connectionCatch_keeps err started) as [Hr Hf].
    simpl. rewrite Hr. repeat split; [exact Hnil | now apply Hf].
  - destruct (negb (Stream.resp_ok response)); [now repeat split |].
    destruct (resp_body response) as [reader |]; [| now repeat split].
    destruct (readLoop_routes reader newTextDecoder ""%string started)
      as (Hr & Hi & Hf).
    repeat split; [exact Hr | now apply Hi | now apply Hf].
Qed.

(** *** A rejected read *)

Lemma ended_app l1 l2 : ended (l1 ++ l2) = ended l1 || ended l2.
Proof. apply existsb_app. Qed.

Lemma nonTerminal_not_ended events :
  nonTerminal events = true -> ended events = false.
Proof.
  unfold nonTerminal, ended. induction events as [| e events IH]; simpl;
    [reflexivity |].
  intros H. apply andb_true_iff in H as [He Hrest].
  apply negb_true_iff in He. now rewrite He, IH.
Qed.

Lemma readLoop_rejected chunks err rest : forall d buffer st,
  readLoop (map Chunk chunks ++ ReadRejects err :: rest) d buffer st
  = let (st', events) := readLoop (map Chunk chunks) d buffer st in
    if ended events then (st', events)
    else (connectionCatch err st', events).
Proof.
  induction chunks as [| c chunks IH]; intros d buffer st;
    cbn [map app Stream.readLoop]; [reflexivity |].
  destruct (Stream.decode Decoder decodeByte d c) as [d' text].
  destruct (pop (split_newline (buffer ++ text))) as [popped lines].
  pose proof (processLines_events JSON_parse lines st) as Hev.
  destruct (processLines st lines) as [st1 ev1 | st1 ev1].
  - rewrite IH.
    destruct (Stream.readLoop _ _ _ (map Chunk chunks) d' (or_empty popped) st1)
      as [st2 ev2].
    rewrite ended_app, (nonTerminal_not_ended _ Hev). simpl.
    now destruct (ended ev2).
  - destruct Hev as (before & t & -> & Hb & Ht).
    rewrite ended_app. simpl. rewrite Ht. simpl. now rewrite orb_true_r.
Qed.

(** *** Any number of chunks *)

Lemma readLoop_joined c chunks : forall d buffer st,
  readLoop (map Chunk (c :: chunks)) d buffer st
  = readLoop [Chunk (c ++ List.concat chunks)] d buffer st.
Proof.
  revert c. induction chunks as [| c' chunks IH]; intros c d buffer st.
  - simpl List.concat. now rewrite app_nil_r.
  - cbn [map]. rewrite <- (readLoop_split JSON_parse Decoder decodeByte).
    change (Chunk (c ++ c') :: map Chunk chunks)
      with (map Chunk ((c ++ c') :: chunks)).
    rewrite IH. simpl List.concat. now rewrite app_assoc.
Qed.

Lemma replay_flags events : forall st,
  isComplete (replay st events) = isComplete st || ended events
  /\ isStreaming (replay st events) = isStreaming st && negb (ended events).
Proof.
  induction events as [| e events IH]; intros st; simpl.
  - now rewrite orb_false_r, andb_true_r.
  - destruct (IH (applyEvent st e)) as [Hc Hs]. unfold replay in *.
    rewrite Hc, Hs.
    destruct e; simpl; rewrite ?orb_true_r, ?andb_false_r; auto.
Qed.
End Mirror.

(** X10. However the body of a successful response is cut into chunks,
    and into however many, [startStreaming] ends in the same state with
    the same events as if the whole body had come as one chunk. *)
Theorem stream_chunking_is_irrelevant :
  forall JSON_parse Decoder newTextDecoder decodeByte
         (chunks : list (list Byte.byte)),
    startStreaming JSON_parse Decoder newTextDecoder decodeByte
      (okStream chunks)
    = startStreaming JSON_parse Decoder newTextDecoder decodeByte
        (okStream [List.concat chunks]).
Proof.
  intros JSON_parse Decoder newTextDecoder decodeByte chunks.
  unfold startStreaming, okStream.
  cbn [resp_ok resp_body negb].
  destruct chunks as [| c chunks]; [reflexivity |].
  rewrite readLoop_joined. cbn [map List.concat]. reflexivity.
Qed.

(** X11. On a successful response whose reads all succeed, the state that
    [startStreaming] leaves is the start state with the emitted events
    applied in order. The component is complete exactly when a terminal
    event was emitted and keeps streaming otherwise: a body that ends
    without a result or a fatal error leaves it streaming for ever. *)
Theorem stream_state_mirrors_its_events :
  forall JSON_parse Decoder newTextDecoder decodeByte
         (chunks : list (list Byte.byte)),
    let run := startStreaming JSON_parse Decoder newTextDecoder decodeByte
                 (okStream chunks) in
    fst run = replay started (snd run)
    /\ isComplete (fst run) = ended (snd run)
    /\ isStreaming (fst run) = negb (ended (snd run)).
Proof.
  intros JSON_parse Decoder newTextDecoder decodeByte chunks run.
  assert (H : fst run = replay started (snd run)).
  { subst run. unfold startStreaming, okStream.
    cbn [resp_ok resp_body negb]. apply readLoop_replay. }
  split; [exact H |].
  rewrite H. destruct (replay_flags (snd run) started) as [Hc Hs].
  now rewrite Hc, Hs.
Qed.

(** X12. Whatever the request meets, the routes that [startStreaming]
    stores are the routes of the emitted route events, in order, and the
    one at position [i] (from 0) carries [displayIndex = i + 1]. *)
Theorem stream_routes_are_numbered_in_order :
  forall JSON_parse Decoder newTextDecoder decodeByte outcome,
    let run := startStreaming JSON_parse Decoder newTextDecoder decodeByte
                 outcome in
    routes (fst run) = foundRoutes (snd run)
    /\ forall i r, nth_error (routes (fst run)) i = Some r ->
         displayIndexOf r = Some (VNum (Z.of_nat i + 1)).
Proof.
  intros JSON_parse Decoder newTextDecoder decodeByte outcome run.
  destruct (startStreaming_routes JSON_parse Decoder newTextDecoder
              decodeByte outcome) as (Hr & Hi & _).
  split; [exact Hr | exact Hi].
Qed.

(** X13. When a read of the body is rejected after some chunks, the
    result is that of the chunks alone if they already ended the stream;
    otherwise the events are those of the chunks and the state goes
    through the outer [catch]: an "AbortError" leaves it as it is, any
    other rejection sets the connection error and completes. What the
    reader would have given after the rejection is never read. *)
Theorem rejected_read_goes_to_the_outer_catch :
  forall JSON_parse Decoder newTextDecoder decodeByte
         (chunks : list (list Byte.byte)) err rest,
    let run := startStreaming JSON_parse Decoder newTextDecoder decodeByte
                 (okStream chunks) in
    startStreaming JSON_parse Decoder newTextDecoder decodeByte
      (okResponse (map Chunk chunks ++ ReadRejects err :: rest))
    = (if ended (snd run) then fst run else connectionCatch err (fst run),
       snd run)
    /\ (forall message, err = ErrorValue "AbortError" message ->
        startStreaming JSON_parse Decoder newTextDecoder decodeByte
          (okResponse (map Chunk chunks ++ ReadRejects err :: rest))
        = run).
Proof.
  intros JSON_parse Decoder newTextDecoder decodeByte chunks err rest run.
  assert (H : startStreaming JSON_parse Decoder newTextDecoder decodeByte
                (okResponse (map Chunk chunks ++ ReadRejects err :: rest))
              = (if ended (snd run) then fst run
                 else connectionCatch err (fst run), snd run)).
  { subst run. unfold startStreaming, okResponse, okStream.
    cbn [resp_ok resp_body negb]. rewrite readLoop_rejected.
    destruct (readLoop JSON_parse Decoder decodeByte (map Chunk chunks)
                newTextDecoder ""%string started) as [st events].
    simpl. now destruct (ended events). }
  split; [exact H |].
  intros message ->. rewrite H. simpl.
  destruct (ended (snd run)); now destruct run.
Qed.

(** X14. Whatever the request meets, once [startStreaming] has run the
    component is streaming exactly when it is not complete: the Start
    button is not rendered, the Stop button and the spinner are rendered
    until completion, and there is one card per stored route. After
    [stopStreaming] the Start button is back exactly when the stream had
    not completed. *)
Theorem view_after_streaming :
  forall JSON_parse Decoder newTextDecoder decodeByte outcome,
    let st := fst (startStreaming JSON_parse Decoder newTextDecoder decodeByte
                     outcome) in
    Rendering.startButton (Rendering.render st) = false
    /\ Rendering.stopButton (Rendering.render st) = negb (isComplete st)
    /\ Rendering.spinner (Rendering.render st) = negb (isComplete st)
    /\ Rendering.startButton (Rendering.render (Rendering.stopStreaming st))
       = negb (isComplete st)
    /\ Rendering.spinner (Rendering.render (Rendering.stopStreaming st)) = false.
Proof.
  intros JSON_parse Decoder newTextDecoder decodeByte outcome st.
  destruct (startStreaming_routes JSON_parse Decoder newTextDecoder
              decodeByte outcome) as (_ & _ & Hf).
  fold st in Hf. unfold Rendering.render, Rendering.stopStreaming. simpl.
  rewrite Hf. destruct (isComplete st); repeat split; reflexivity.
Qed.

(** X15. The label of the card of a stored route is its position counted
    from 1: [route.displayIndex || route.seqNum] never falls back to
    [seqNum], whatever record the server sent. *)
Theorem route_card_label_is_the_position :
  forall JSON_parse Decoder newTextDecoder decodeByte outcome i r,
    nth_error
      (routes (fst (startStreaming JSON_parse Decoder newTextDecoder
                      decodeByte outcome))) i = Some r ->
    RouteCard.label r = Ok (VNum (Z.of_nat i + 1)).
Proof.
  intros JSON_parse Decoder newTextDecoder decodeByte outcome i r Hnth.
  destruct (startStreaming_routes JSON_parse Decoder newTextDecoder
              decodeByte outcome) as (_ & Hi & _).
  specialize (Hi i r Hnth). unfold displayIndexOf in Hi.
  destruct r as [| | | | | | props]; try discriminate Hi.
  unfold RouteCard.label, get, bind. rewrite Hi.
  unfold truthy. replace (Z.of_nat i + 1 =? 0) with false; [reflexivity |].
  symmetry. apply Z.eqb_neq. lia.
Qed.


Lemma stream_routes_are_numbered_in_order_witness :
  let run := Samples.run [Samples.dataLine Samples.nestedRouteText;
                          Samples.dataLine Samples.brokenText;
                          Samples.dataLine Samples.flatRouteText] in
  nth_error (routes (fst run)) 1 = Some (Samples.routeRecord 2)
  /\ displayIndexOf (Samples.routeRecord 2) = Some (VNum (Z.of_nat 1 + 1)).
Proof.
  intros run. split.
  - vm_compute. reflexivity.
  - apply (proj2 (stream_routes_are_numbered_in_order
                    Samples.JSON_parse unit tt Samples.byteDecoder
                    (okStream (map Samples.bytes
                                 [Samples.dataLine Samples.nestedRouteText;
                                  Samples.dataLine Samples.brokenText;
                                  Samples.dataLine Samples.flatRouteText])))
                 1%nat (Samples.routeRecord 2)).
    vm_compute. reflexivity.
Defined.

Lemma rejected_read_goes_to_the_outer_catch_witness :
  let chunks := [Samples.bytes (Samples.dataLine Samples.flatRouteText)] in
  let later := [Chunk (Samples.bytes (Samples.dataLine Samples.resultText))] in
  ErrorValue "AbortError" "aborted" = ErrorValue "AbortError" "aborted"
  /\ startStreaming Samples.JSON_parse unit tt Samples.byteDecoder
       (okResponse (map Chunk chunks
                    ++ ReadRejects (ErrorValue "AbortError" "aborted") :: later))
     = (Samples.oneRoute, [RouteFound (Samples.routeRecord 1)]).
Proof.
  intros chunks later. split; [reflexivity |].
  rewrite (proj2 (rejected_read_goes_to_the_outer_catch
                    Samples.JSON_parse unit tt Samples.byteDecoder
                    chunks (ErrorValue "AbortError" "aborted") later)
                 "aborted"%string); [| reflexivity].
  vm_compute. reflexivity.
Defined.

Lemma route_card_label_is_the_position_witness :
  nth_error
    (routes (fst (Samples.run [Samples.dataLine Samples.nestedRouteText;
                               Samples.dataLine Samples.flatRouteText]))) 1
    = Some (Samples.routeRecord 2)
  /\ RouteCard.label (Samples.routeRecord 2) = Ok (VNum (Z.of_nat 1 + 1)).
Proof.
  split.
  - vm_compute. reflexivity.
  - apply (route_card_label_is_the_position
             Samples.JSON_parse unit tt Samples.byteDecoder
             (okStream (map Samples.bytes
                          [Samples.dataLine Samples.nestedRouteText;
                           Samples.dataLine Samples.flatRouteText]))
             1%nat (Samples.routeRecord 2)).
    vm_compute. reflexivity.
Defined.


End StreamMore.

(* ================================================================== *)
(** ** The form page *)
(* ================================================================== *)

Module PageFacts.
Import JS Page.

Local Open Scope list_scope.

Lemma handleInputChange_formData name value st :
  NoDup (keys (formData st)) ->
  formData (handleInputChange name value st)
  = obj_set name (VStr value) (formData st).
Proof.
  intros Hnd. unfold handleInputChange. simpl.
  now rewrite StreamFacts.spread_object.
Qed.

(** From a state without repeated keys, the changes leave each field with
    what was last typed into it. *)
Lemma changes_from changes : forall st name start,
  NoDup (keys (formData st)) ->
  obj_get name (formData st) = Some (VStr start) ->
  let st' := fold_left (fun st c => handleInputChange (fst c) (snd c) st)
                       changes st in
  NoDup (keys (formData st'))
  /\ obj_get name (formData st') = Some (VStr (lastTyped name start changes))
  /\ showStreaming st' = showStreaming st.
Proof.
  induction changes as [| [n v] changes IH]; intros st name start Hnd Hget;
    [now repeat split |].
  cbn [fold_left fst snd lastTyped].
  assert (Hnd' : NoDup (keys (formData (handleInputChange n v st)))).
  { rewrite handleInputChange_formData by assumption.
    now apply StreamFacts.obj_set_NoDup. }
  destruct (String.eqb n name) eqn:E.
  - apply String.eqb_eq in E. subst n.
    apply (IH (handleInputChange name v st) name v Hnd').
    rewrite handleInputChange_formData by assumption.
    now apply StreamMore.obj_get_obj_set_same.
  - apply String.eqb_neq in E.
    apply (IH (handleInputChange n v st) name start Hnd').
    rewrite handleInputChange_formData by assumption.
    rewrite StreamMore.obj_get_obj_set_other by congruence.
    exact Hget.
Qed.

Lemma initial_NoDup : NoDup (keys (formData initial)).
Proof.
  simpl. repeat constructor; simpl; intuition discriminate.
Qed.

(** X17. Whatever is typed into the form, and in whatever order, each
    field of the form data holds the value last typed into it, or its
    initial value when nothing was; typing never shows the stream. *)
Theorem form_holds_what_was_last_typed :
  forall changes name start,
    obj_get name (formData initial) = Some (VStr start) ->
    get (VObj (formData (afterChanges changes))) name
    = Ok (VStr (lastTyped name start changes))
    /\ showStreaming (afterChanges changes) = false.
Proof.
  intros changes name start Hget.
  destruct (changes_from changes initial name start initial_NoDup Hget)
    as (_ & Hlast & Hshow).
  unfold afterChanges. cbn [get]. now rewrite Hlast.
Qed.

(** X18. Submitting the form never throws. It shows the stream exactly
    when the API key last typed has a character that is not white space;
    otherwise it alerts and leaves the page as it is. The form data are
    not touched, and [resetDemo] hides the stream again. *)
Theorem submit_needs_an_api_key :
  forall changes,
    let st := afterChanges changes in
    handleSubmit st
    = Ok (if Stream.whiteSpaceOnly (lastTyped "apiKey" "" changes)
          then (st, [PleaseEnterApiKey])
          else ({| formData := formData st; showStreaming := true |}, []))
    /\ resetDemo {| formData := formData st; showStreaming := true |} = st.
Proof.
  intros changes st.
  destruct (changes_from changes initial "apiKey" ""%string initial_NoDup
              eq_refl) as (_ & Hlast & Hshow).
  fold (afterChanges changes) in Hlast, Hshow. fold st in Hlast, Hshow.
  split.
  - unfold handleSubmit, bind. cbn [get]. rewrite Hlast.
    rewrite StreamFacts.trim_eqb.
    now destruct (Stream.whiteSpaceOnly (lastTyped "apiKey" "" changes)).
  - unfold resetDemo. simpl. destruct st as [fd sh]. simpl in *. now subst.
Qed.

Lemma form_holds_what_was_last_typed_witness :
  obj_get "sellAmount" (formData initial) = Some (VStr "1000000")
  /\ get (VObj (formData (afterChanges [("sellAmount", "5"); ("apiKey", "k");
                                       ("sellAmount", "70")])))
         "sellAmount"
     = Ok (VStr "70").
Proof.
  split; [reflexivity |].
  apply (form_holds_what_was_last_typed
           [("sellAmount", "5"); ("apiKey", "k"); ("sellAmount", "70")]%string
           "sellAmount"%string "1000000"%string).
  reflexivity.
Defined.

End PageFacts.

(* ================================================================== *)
(** ** The configuration and the start of the scripts *)
(* ================================================================== *)

Module ConfigFacts.
Import JS Config.

Lemma startsWith_0x k :
  Stream.startsWith "0x" k = true ->
  k = ("0x" ++ Stream.slice 2 k)%string.
Proof.
  unfold Stream.startsWith.
  destruct k as [| a [| b rest]]; cbn [String.prefix Stream.slice append].
  - discriminate.
  - destruct (ascii_dec "0" a); discriminate.
  - destruct (ascii_dec "0" a) as [<- |]; [| discriminate].
    destruct (ascii_dec "x" b) as [<- |]; [| discriminate].
    reflexivity.
Qed.

Lemma startsWith_0x_body body :
  Stream.startsWith "0x" ("0x" ++ body) = true.
Proof. unfold Stream.startsWith. destruct body; reflexivity. Qed.

Lemma hex_has_no_0x k :
  allChars isHexDigit k = true -> Stream.startsWith "0x" k = false.
Proof.
  intros Hhex. destruct (Stream.startsWith "0x" k) eqn:E; [| reflexivity].
  apply startsWith_0x in E. rewrite E in Hhex.
  unfold allChars in Hhex. cbn [append list_ascii_of_string forallb] in Hhex.
  apply andb_true_iff in Hhex as [_ Hx].
  apply andb_true_iff in Hx as [Hx _]. discriminate Hx.
Qed.

Lemma not_empty_eqb k : k <> ""%string <-> String.eqb k "" = false.
Proof. now rewrite String.eqb_neq. Qed.

(** X19. The accepted private keys. An EVM key is accepted exactly when
    it is empty, or 64 hexadecimal digits, or "0x" followed by 64
    hexadecimal digits (a bare "0x" and a doubled prefix are refused). A
    Solana key is accepted exactly when it is empty or 44 to 88 base58
    characters, any length in between included. *)
Theorem accepted_private_keys :
  forall k,
    (evmPrivateKeyOk (Some k) = true <->
     k = ""%string
     \/ (String.length k = 64%nat /\ allChars isHexDigit k = true)
     \/ exists body, k = ("0x" ++ body)%string
                     /\ String.length body = 64%nat
                     /\ allChars isHexDigit body = true)
    /\ (solanaPrivateKeyOk (Some k) = true <->
        k = ""%string
        \/ ((44 <= String.length k <= 88)%nat /\ allChars isBase58 k = true)).
Proof.
  intros k. split.
  - unfold evmPrivateKeyOk. destruct (String.eqb k "") eqn:Ek.
    + apply String.eqb_eq in Ek. split; [now left | reflexivity].
    + apply String.eqb_neq in Ek.
      destruct (Stream.startsWith "0x" k) eqn:Ep.
      * rewrite andb_true_iff, Nat.eqb_eq. split.
        -- intros [Hlen Hhex]. right. right.
           exists (Stream.slice 2 k). split; [now apply startsWith_0x |].
           now split.
        -- intros [Hk | [[Hlen Hhex] | (body & Hk & Hlen & Hhex)]].
           ++ contradiction.
           ++ rewrite hex_has_no_0x in Ep by assumption. discriminate Ep.
           ++ subst k. now split.
      * rewrite andb_true_iff, Nat.eqb_eq. split.
        -- intros H. right. now left.
        -- intros [Hk | [H | (body & Hk & _)]].
           ++ contradiction.
           ++ exact H.
           ++ subst k. rewrite startsWith_0x_body in Ep. discriminate Ep.
  - unfold solanaPrivateKeyOk. destruct (String.eqb k "") eqn:Ek.
    + apply String.eqb_eq in Ek. split; [now left | reflexivity].
    + apply String.eqb_neq in Ek.
      rewrite !andb_true_iff, !Nat.leb_le. split.
      * intros [[H1 H2] H3]. right. now repeat split.
      * intros [Hk | [[H1 H2] H3]]; [contradiction | now repeat split].
Qed.

Section Scripts.
Variable isEvmAddress : string -> bool.
Variable isSolanaAddress : string -> option bool.
Variable isUrl : string -> bool.

Local Abbreviation loadConfig :=
  (Config.loadConfig isEvmAddress isSolanaAddress isUrl).

(** What a loaded configuration takes from the environment. *)
Lemma loadConfig_sound env c :
  loadConfig env = Some c ->
  evmPrivateKey c = env "EVM_PRIVATE_KEY"
  /\ solanaPrivateKey c = env "SOLANA_PRIVATE_KEY"
  /\ evmReceiverAddress c = env "EVM_RECEIVER_ADDRESS"
  /\ solanaReceiverAddress c = env "SOLANA_RECEIVER_ADDRESS"
  /\ evmReceiverOk isEvmAddress (env "EVM_RECEIVER_ADDRESS") = true
  /\ solanaReceiverOk isSolanaAddress (env "SOLANA_RECEIVER_ADDRESS") = true.
Proof.
  unfold Config.loadConfig, refined.
  destruct (env "ZEROEX_API_KEY"); [| discriminate].
  destruct (evmPrivateKeyOk (env "EVM_PRIVATE_KEY")); [| discriminate].
  destruct (solanaPrivateKeyOk (env "SOLANA_PRIVATE_KEY")); [| discriminate].
  destruct (solanaPrivateKeyOk (env "SOLANA_GAS_PAYER_PRIVATE_KEY"));
    [| discriminate].
  destruct (evmReceiverOk isEvmAddress (env "EVM_RECEIVER_ADDRESS"));
    [| discriminate].
  destruct (solanaReceiverOk isSolanaAddress (env "SOLANA_RECEIVER_ADDRESS"));
    [| discriminate].
  destruct (urlOrDefault isUrl _ (env "BASE_RPC_URL")); [| discriminate].
  destruct (urlOrDefault isUrl _ (env "ARBITRUM_RPC_URL")); [| discriminate].
  destruct (urlOrDefault isUrl _ (env "SOLANA_RPC_URL")); [| discriminate].
  intros [= <-]. simpl. now repeat split.
Qed.

(** How [start] comes out. *)
Lemma start_cases wallet defaultSender defaultReceiver privateKey receiver :
  (start wallet defaultSender defaultReceiver privateKey receiver
     = WalletThrows <->
   exists key, privateKey = Some key /\ key <> ""%string
               /\ wallet key = None)
  /\ (start wallet defaultSender defaultReceiver privateKey receiver
        = SafetyStop <->
      exists key address,
        privateKey = Some key /\ key <> ""%string
        /\ wallet key = Some address /\ absent receiver = true)
  /\ forall s,
       start wallet defaultSender defaultReceiver privateKey receiver
         = Proceeds s ->
       (hasWallet s = true ->
        (exists key, privateKey = Some key /\ key <> ""%string
                     /\ wallet key = Some (userAddress s))
        /\ receiver = Some (receiverAddress s)
        /\ receiverAddress s <> ""%string)
       /\ (hasWallet s = false ->
           absent privateKey = true
           /\ userAddress s = defaultSender
           /\ ((absent receiver = true /\ receiverAddress s = defaultReceiver)
               \/ (receiver = Some (receiverAddress s)
                   /\ receiverAddress s <> ""%string))).
Proof.
  assert (Hreceiver : forall s : Start,
            receiverAddress s
            = match receiver with
              | Some r => if String.eqb r "" then defaultReceiver else r
              | None => defaultReceiver
              end ->
            (absent receiver = true /\ receiverAddress s = defaultReceiver)
            \/ (absent receiver = false /\ receiver = Some (receiverAddress s)
                /\ receiverAddress s <> ""%string)).
  { intros s Hs. destruct receiver as [r |]; simpl in *; [| now left].
    destruct (String.eqb r "") eqn:Er; [now left |].
    right. subst. repeat split. now apply String.eqb_neq. }
  unfold start.
  destruct privateKey as [key |]; simpl.
  - destruct (String.eqb key "") eqn:Ekey; simpl.
    + apply String.eqb_eq in Ekey. subst key.
      split; [| split].
      * split; [discriminate |]. intros (k & [= <-] & Hk & _). congruence.
      * split; [discriminate |]. intros (k & a & [= <-] & Hk & _). congruence.
      * intros s [= <-]. simpl. split; [discriminate |]. intros _.
        split; [reflexivity |]. split; [reflexivity |].
        destruct (Hreceiver {| hasWallet := false; userAddress := defaultSender;
                               receiverAddress := _ |} eq_refl)
          as [H | (_ & H)]; [now left | now right].
    + apply String.eqb_neq in Ekey.
      destruct (wallet key) as [address |] eqn:Ew.
      * destruct (absent receiver) eqn:Erec; simpl.
        -- split; [| split].
           ++ split; [discriminate |].
              intros (k & [= <-] & _ & Hw). congruence.
           ++ split; [intros _; now exists key, address |reflexivity].
           ++ discriminate.
        -- split; [| split].
           ++ split; [discriminate |].
              intros (k & [= <-] & _ & Hw). congruence.
           ++ split; [discriminate |].
              intros (k & a & _ & _ & _ & H). discriminate H.
           ++ intros s [= <-]. simpl. split; [| discriminate]. intros _.
              split; [now exists key |].
              destruct (Hreceiver {| hasWallet := true; userAddress := address;
                                     receiverAddress := _ |} eq_refl)
                as [(H & _) | (_ & H)]; [congruence | exact H].
      * split; [| split].
        -- split; [intros _; now exists key | reflexivity].
        -- split; [discriminate |].
           intros (k & a & [= <-] & _ & Hw & _). congruence.
        -- discriminate.
  - split; [| split].
    + split; [discriminate |]. intros (k & H & _). discriminate H.
    + split; [discriminate |]. intros (k & a & H & _). discriminate H.
    + intros s [= <-]. simpl. split; [discriminate |]. intros _.
      split; [reflexivity |]. split; [reflexivity |].
      destruct (Hreceiver {| hasWallet := false; userAddress := defaultSender;
                             receiverAddress := _ |} eq_refl)
        as [H | (_ & H)]; [now left | now right].
Qed.
End Scripts.

(** X20. The start of the two example scripts, for a loaded
    configuration and any wallet set-up. With a private key the script
    rejects when the set-up of the wallet throws; it stops at the safety
    check exactly when the set-up succeeds and no receiver is configured;
    and when it goes on to the quote with a wallet, the receiver is the
    one of the environment, not empty, which passed the address check of
    [loadConfig], never the default one standing in for a missing one.
    Without a key it goes on with the default sender and with the
    configured receiver or, when there is none, the default one. *)
Theorem scripts_send_to_the_configured_receiver :
  forall isEvmAddress isSolanaAddress isUrl solanaWallet evmWallet env c,
    Config.loadConfig isEvmAddress isSolanaAddress isUrl env = Some c ->
    ((startSolanaToBase solanaWallet c = WalletThrows <->
      exists key, env "SOLANA_PRIVATE_KEY" = Some key /\ key <> ""%string
                  /\ solanaWallet (solana (rpcUrls c)) key = None)
     /\ (startSolanaToBase solanaWallet c = SafetyStop <->
         exists key address,
           env "SOLANA_PRIVATE_KEY" = Some key /\ key <> ""%string
           /\ solanaWallet (solana (rpcUrls c)) key = Some address
           /\ absent (env "EVM_RECEIVER_ADDRESS") = true)
     /\ forall s, startSolanaToBase solanaWallet c = Proceeds s ->
          (hasWallet s = true ->
           (exists key, env "SOLANA_PRIVATE_KEY" = Some key
                        /\ key <> ""%string
                        /\ solanaWallet (solana (rpcUrls c)) key
                           = Some (userAddress s))
           /\ env "EVM_RECEIVER_ADDRESS" = Some (receiverAddress s)
           /\ receiverAddress s <> ""%string
           /\ isEvmAddress (receiverAddress s) = true)
          /\ (hasWallet s = false ->
              absent (env "SOLANA_PRIVATE_KEY") = true
              /\ userAddress s = DEFAULT_SOLANA
              /\ ((absent (env "EVM_RECEIVER_ADDRESS") = true
                   /\ receiverAddress s = DEFAULT_EVM)
                  \/ (env "EVM_RECEIVER_ADDRESS" = Some (receiverAddress s)
                      /\ isEvmAddress (receiverAddress s) = true))))
    /\
    ((startBaseToSolana evmWallet c = WalletThrows <->
      exists key, env "EVM_PRIVATE_KEY" = Some key /\ key <> ""%string
                  /\ evmWallet (base (rpcUrls c)) key = None)
     /\ (startBaseToSolana evmWallet c = SafetyStop <->
         exists key address,
           env "EVM_PRIVATE_KEY" = Some key /\ key <> ""%string
           /\ evmWallet (base (rpcUrls c)) key = Some address
           /\ absent (env "SOLANA_RECEIVER_ADDRESS") = true)
     /\ forall s, startBaseToSolana evmWallet c = Proceeds s ->
          (hasWallet s = true ->
           (exists key, env "EVM_PRIVATE_KEY" = Some key
                        /\ key <> ""%string
                        /\ evmWallet (base (rpcUrls c)) key
                           = Some (userAddress s))
           /\ env "SOLANA_RECEIVER_ADDRESS" = Some (receiverAddress s)
           /\ receiverAddress s <> ""%string
           /\ isSolanaAddress (receiverAddress s) = Some true)
          /\ (hasWallet s = false ->
              absent (env "EVM_PRIVATE_KEY") = true
              /\ userAddress s = DEFAULT_EVM
              /\ ((absent (env "SOLANA_RECEIVER_ADDRESS") = true
                   /\ receiverAddress s = DEFAULT_SOLANA)
                  \/ (env "SOLANA_RECEIVER_ADDRESS" = Some (receiverAddress s)
                      /\ isSolanaAddress (receiverAddress s) = Some true)))).
Proof.
  intros isEvmAddress isSolanaAddress isUrl solanaWallet evmWallet env c Hload.
  destruct (loadConfig_sound _ _ _ _ _ Hload)
    as (Hek & Hsk & Her & Hsr & Heok & Hsok).
  assert (Hevm : forall a, env "EVM_RECEIVER_ADDRESS" = Some a ->
                   a <> ""%string -> isEvmAddress a = true).
  { intros a Ha Hne. rewrite Ha in Heok. simpl in Heok.
    apply String.eqb_neq in Hne. now rewrite Hne in Heok. }
  assert (Hsol : forall a, env "SOLANA_RECEIVER_ADDRESS" = Some a ->
                   a <> ""%string -> isSolanaAddress a = Some true).
  { intros a Ha Hne. rewrite Ha in Hsok. simpl in Hsok.
    apply String.eqb_neq in Hne. rewrite Hne in Hsok.
    destruct (isSolanaAddress a) as [[|] |];
      [reflexivity | discriminate Hsok | discriminate Hsok]. }
  unfold startSolanaToBase, startBaseToSolana.
  rewrite Hek, Hsk, Her, Hsr.
  split.
  - destruct (start_cases (solanaWallet (solana (rpcUrls c)))
                DEFAULT_SOLANA DEFAULT_EVM (env "SOLANA_PRIVATE_KEY")
                (env "EVM_RECEIVER_ADDRESS")) as (Hthrows & Hstop & Hgo).
    split; [exact Hthrows |]. split; [exact Hstop |].
    intros s Hs. destruct (Hgo s Hs) as [Hwith Hwithout]. split.
    + intros Hw. destruct (Hwith Hw) as (Hkey & Hrec & Hne).
      repeat split; try assumption. now apply Hevm.
    + intros Hw. destruct (Hwithout Hw) as (Habs & Hu & [Hd | [Hrec Hne]]).
      * repeat split; try assumption. now left.
      * repeat split; try assumption. right. split; [exact Hrec |].
        now apply Hevm.
  - destruct (start_cases (evmWallet (base (rpcUrls c)))
                DEFAULT_EVM DEFAULT_SOLANA (env "EVM_PRIVATE_KEY")
                (env "SOLANA_RECEIVER_ADDRESS")) as (Hthrows & Hstop & Hgo).
    split; [exact Hthrows |]. split; [exact Hstop |].
    intros s Hs. destruct (Hgo s Hs) as [Hwith Hwithout]. split.
    + intros Hw. destruct (Hwith Hw) as (Hkey & Hrec & Hne).
      repeat split; try assumption. now apply Hsol.
    + intros Hw. destruct (Hwithout Hw) as (Habs & Hu & [Hd | [Hrec Hne]]).
      * repeat split; try assumption. now left.
      * repeat split; try assumption. right. split; [exact Hrec |].
        now apply Hsol.
Qed.

Lemma accepted_private_keys_witness :
  let key := "0x0123456789abcdefABCDEF0123456789abcdefABCDEF0123456789abcdefABCD"%string in
  (exists body, key = ("0x" ++ body)%string
                /\ String.length body = 64%nat
                /\ allChars isHexDigit body = true)
  /\ evmPrivateKeyOk (Some key) = true.
Proof.
  intros key.
  assert (H : exists body, key = ("0x" ++ body)%string
                           /\ String.length body = 64%nat
                           /\ allChars isHexDigit body = true).
  { exists (Stream.slice 2 key). vm_compute. repeat split. }
  split; [exact H |].
  apply (proj2 (proj1 (accepted_private_keys key))).
  right. right. exact H.
Defined.

Lemma scripts_send_to_the_configured_receiver_witness :
  (exists c s,
     Config.loadConfig sampleIsEvmAddress sampleIsSolanaAddress sampleIsUrl
       sampleEnv = Some c
     /\ startSolanaToBase sampleSolanaWallet c = Proceeds s
     /\ hasWallet s = true
     /\ (exists key, sampleEnv "SOLANA_PRIVATE_KEY" = Some key
                     /\ key <> ""%string
                     /\ sampleSolanaWallet (solana (rpcUrls c)) key
                        = Some (userAddress s))
     /\ sampleEnv "EVM_RECEIVER_ADDRESS" = Some (receiverAddress s)
     /\ receiverAddress s <> ""%string
     /\ sampleIsEvmAddress (receiverAddress s) = true)
  /\ (exists c,
        Config.loadConfig sampleIsEvmAddress sampleIsSolanaAddress sampleIsUrl
          sampleEnvNoReceiver = Some c
        /\ startSolanaToBase sampleSolanaWallet c = SafetyStop).
Proof.
  split.
  - eexists. eexists.
    split; [vm_compute; reflexivity |].
    split; [vm_compute; reflexivity |].
    split; [reflexivity |].
    refine (proj1 (proj2 (proj2 (proj1
              (scripts_send_to_the_configured_receiver
                 sampleIsEvmAddress sampleIsSolanaAddress sampleIsUrl
                 sampleSolanaWallet (fun _ _ => None) sampleEnv _ _))) _ _) _).
    + vm_compute. reflexivity.
    + vm_compute. reflexivity.
    + reflexivity.
  - eexists. split; [vm_compute; reflexivity |].
    refine (proj2 (proj1 (proj2 (proj1
              (scripts_send_to_the_configured_receiver
                 sampleIsEvmAddress sampleIsSolanaAddress sampleIsUrl
                 sampleSolanaWallet (fun _ _ => None) sampleEnvNoReceiver
                 _ _)))) _).
    + vm_compute. reflexivity.
    + exists sampleKey, sampleSender.
      split; [reflexivity |]. split; [discriminate |].
      split; reflexivity.
Defined.

End ConfigFacts.

(* ================================================================== *)
(** ** The monitoring step of the example scripts *)
(* ================================================================== *)

Module ScriptFacts.
Import JS Monitor Script MonitorFacts MonitorRuns.

Local Open Scope list_scope.

Lemma totalDelay_repeat ms n :
  fold_right Z.add 0 (repeat ms n) = Z.of_nat n * ms.
Proof.
  induction n as [| n IH]; [reflexivity |].
  cbn [repeat fold_right]. rewrite IH. lia.
Qed.

(** The schema lets only the enumerated reasons through. *)
Lemma schema_subStatus_enumerated data s reason :
  CrossChainStatusResponseSchema_parse data = Some s ->
  subStatus s = Some reason ->
  In reason subStatusEnum.
Proof.
  unfold CrossChainStatusResponseSchema_parse.
  destruct data as [| | | | | | props]; try discriminate.
  destruct (parse_required (parse_enum statusEnum) (obj_get "status" props));
    [| discriminate].
  destruct (parse_optional (parse_enum subStatusEnum)
              (obj_get "subStatus" props)) as [ss |] eqn:Hss; [| discriminate].
  destruct (parse_optional _ (obj_get "bridge" props)); [| discriminate].
  destruct (parse_required _ (obj_get "transactions" props)); [| discriminate].
  destruct (parse_required _ (obj_get "zid" props)); [| discriminate].
  intros [= <-]. simpl. intros ->.
  unfold parse_optional in Hss.
  destruct (obj_get "subStatus" props) as [v |]; [| discriminate Hss].
  destruct v as [| | | | str | |]; cbn [parse_enum] in Hss;
    try discriminate Hss.
  destruct (includes subStatusEnum str) eqn:Hinc; [| discriminate Hss].
  injection Hss as <-. exact (proj1 (includes_In subStatusEnum str) Hinc).
Qed.

Lemma attemptResult_subStatus remote request i s reason :
  attemptResult remote request i = inr s ->
  subStatus s = Some reason ->
  In reason subStatusEnum.
Proof.
  unfold attemptResult, getStatus; simpl.
  destruct (remote request i) as [m | r]; [discriminate |].
  destruct (negb (Monitor.resp_ok r)); [discriminate |].
  destruct (resp_json r) as [data |]; [| discriminate].
  destruct (CrossChainStatusResponseSchema_parse data) eqn:Hp; [| discriminate].
  intros [= <-]. now apply (schema_subStatus_enumerated data).
Qed.

(** X21. The monitoring step of the example scripts always comes to its
    report, after at most 120 status fetches and at most 595 seconds of
    delays. It reports success only for a last status
    [destination_tx_succeeded] or [bridge_filled]; it reports that the
    swap did not complete only for one of the six other final statuses
    (a succeeded refund among them), with the sub-status of that answer
    as the reason; it reports a monitoring failure only after all 120
    fetches. *)
Theorem script_report_follows_the_last_status :
  forall remote request,
  exists w r,
    monitorAndReport remote request = Some (w, r)
    /\ (fetches (log w) <= 120)%nat
    /\ totalDelay (log w) <= 595000
    /\ match r with
       | CompletedSuccessfully =>
           exists s,
             attemptResult remote request (fetches (log w) - 1) = inr s
             /\ In (status s) ["destination_tx_succeeded"; "bridge_filled"]%string
       | DidNotComplete reason =>
           exists s,
             attemptResult remote request (fetches (log w) - 1) = inr s
             /\ In (status s) failureStates
             /\ reason = subStatus s
       | MonitoringFailed e => fetches (log w) = 120%nat
       end.
Proof.
  intros remote request.
  destruct (loop_total remote request (attemptBudget monitorOptions)
              (delay monitorOptions) (onUpdate monitorOptions)
              (Z.to_nat (attemptBudget monitorOptions)) 0 world0)
    as (w & out & ext & Hrun & _); [simpl; lia |].
  change (monitorTransaction remote request monitorOptions = Some (w, out))
    in Hrun.
  exists w, (report out).
  destruct (monitorTransaction_run _ _ _ _ _ Hrun) as (Hc & Hs & Hout).
  change (attemptBudget monitorOptions) with 120 in Hout.
  assert (Hsleeps : sleeps (log w) = repeat 5000 (fetches (log w) - 1)).
  { rewrite <- sleeps_schedule, Hs. apply sleeps_polls. }
  assert (Hle : (fetches (log w) <= 120)%nat).
  { rewrite <- Hc. destruct out as [s | e].
    - destruct Hout as (_ & Hle & _). simpl in Hle. lia.
    - destruct Hout as [(_ & HN & _) | (_ & HN & _)]; simpl in HN; lia. }
  split; [unfold monitorAndReport; now rewrite Hrun |].
  split; [exact Hle |].
  split; [unfold totalDelay; rewrite Hsleeps, totalDelay_repeat; lia |].
  rewrite <- Hc. destruct out as [s | e]; simpl.
  - destruct Hout as (_ & _ & Hres & Hfin & _).
    destruct (String.eqb (status s) "destination_tx_succeeded") eqn:E1.
    { apply String.eqb_eq in E1. exists s. split; [exact Hres |].
      rewrite E1. now left. }
    destruct (String.eqb (status s) "bridge_filled") eqn:E2.
    { apply String.eqb_eq in E2. exists s. split; [exact Hres |].
      rewrite E2. right. now left. }
    simpl. exists s. split; [exact Hres |]. split.
    + apply String.eqb_neq in E1, E2.
      unfold isFinal in Hfin. apply includes_In in Hfin.
      unfold finalStates in Hfin. unfold failureStates.
      simpl in Hfin |- *.
      destruct Hfin as [H | [H | [H | [H | [H | [H | [H | [H | []]]]]]]]];
        try (symmetry in H; contradiction); auto 10.
    + destruct (subStatus s) as [reason |] eqn:Hsub; [| reflexivity].
      destruct (String.eqb reason "") eqn:Er; [| reflexivity].
      exfalso. apply String.eqb_eq in Er. subst reason.
      pose proof (attemptResult_subStatus _ _ _ _ _ Hres Hsub) as Hin.
      simpl in Hin. intuition discriminate.
  - destruct Hout as [(_ & HN & _) | (_ & HN & _)]; simpl in HN; lia.
Qed.

End ScriptFacts.
